(** * Recursive feature selection by cross-validated ROC AUC

    A shallow embedding of [disteval/recursive_selection_parallel.py]
    (pydisteval) and the properties of its three functions

      - [recursive_feature_selection_roc_auc]  (the greedy search loop),
      - [__single_auc_score__]                 (one candidate, all folds),
      - [get_all_auc_scores]                   (one step, all candidates).

    Conventions of the embedding.

      - Python ints are [Z] where the code compares or clamps them
        ([n_features], [cv_steps], [n_jobs], a seed) and [nat] where they
        index an array.
      - float64 values are exact rationals [Qc] together with [NaN] and the
        two infinities; rounding is not modelled.
      - The classifier, the stratified splitter, the AUC metric, the entropy
        of the operating system and the iteration order of a set of futures
        are interfaces ([Classifier], [Environment]); the code calls them
        and never looks inside.  Numpy's own operations are written out.
      - Python code raises and mutates: every function is a computation in
        the monad [M], which threads a [World] (the caller's classifier
        object, the entropy drawn, a log of the calls made) and returns a
        [result].  The world survives an exception, as it does in Python.
      - The [while] loop of the search takes fuel; running out of fuel is
        [None], distinct from every Python outcome.

    Layout: the model, the vocabulary of the statements, concrete data,
    then the lemmas, and last the theorems for the properties C1 to C10. *)

From Stdlib Require Import ZArith QArith Qcanon Qcabs.
From stdpp Require Import base tactics option list numbers strings sorting.

Open Scope Z_scope.
Open Scope nat_scope.

(* ===================================================================== *)
(** * Python values and exceptions *)
(* ===================================================================== *)

Module Py.

(** The exceptions this module's code paths can raise.  [External] stands
    for whatever an external collaborator (classifier, splitter, metric)
    raises on its own. *)
Inductive exn : Type :=
| ValueError (msg : string)
| IndexError (msg : string)
| TypeError (msg : string)
| UnboundLocalError (name : string)
| AssertionError (msg : string)
| External (msg : string).

(** What a call does: return a value or raise. *)
Inductive result (A : Type) : Type :=
| Ok (a : A)
| Raise (e : exn).
Arguments Ok {A} a.
Arguments Raise {A} e.

#[export] Instance result_ret : MRet result := fun A a => Ok a.
#[export] Instance result_bind : MBind result := fun A B k r =>
  match r with
  | Ok a => k a
  | Raise e => Raise e
  end.

(** A float64: a finite value, not-a-number, or an infinity. *)
Inductive float : Type :=
| Finite (q : Qc)
| NaN
| Inf (negative : bool).

(** [np.isfinite] *)
Definition isfinite (x : float) : bool :=
  match x with Finite _ => true | _ => false end.

Definition half : Qc := Q2Qc (1 # 2).

End Py.
Export Py.

(* ===================================================================== *)
(** * The selection policy (lines 121-146) *)
(* ===================================================================== *)

Module Policy.

(** The four strict comparisons of lines 129-146: does [auc] replace the
    running best [value_best]? *)
Definition replaces (matching_features forward : bool)
           (auc value_best : Qc) : bool :=
  if matching_features then
    if forward then
      bool_decide (Qcabs (auc - half) < Qcabs (value_best - half))%Qc
    else
      bool_decide (Qcabs (value_best - half) < Qcabs (auc - half))%Qc
  else
    if forward then bool_decide (value_best < auc)%Qc
    else bool_decide (auc < value_best)%Qc.

(** One iteration of [for idx, auc in enumerate(auc_scores_i)].  The pair
    [(value_best, index_best)] is [None] until the first finite entry;
    the two Python variables are always set together, so one option of a
    pair stands for both. *)
Definition select_step (matching_features forward : bool)
           (idx : nat) (auc : float) (best : option (Qc * nat))
  : option (Qc * nat) :=
  match auc with
  | Finite a =>
      let best1 := match best with
                   | None => (a, idx)
                   | Some b => b
                   end in
      if replaces matching_features forward a (fst best1)
      then Some (a, idx) else Some best1
  | _ => best                       (* not np.isfinite(auc): continue *)
  end.

Fixpoint select_loop (matching_features forward : bool)
         (idx : nat) (auc_scores_i : list float) (best : option (Qc * nat))
  : option (Qc * nat) :=
  match auc_scores_i with
  | [] => best
  | auc :: rest =>
      select_loop matching_features forward (S idx) rest
                  (select_step matching_features forward idx auc best)
  end.

(** [index_best] after the scan: [None] when no entry was finite. *)
Definition select_best (matching_features forward : bool)
           (auc_scores_i : list float) : option nat :=
  snd <$> select_loop matching_features forward 0 auc_scores_i None.

(** The objective of the docstring's table, as an order on scores:
    [no_worse mf fw a b] says that [a] is at least as good as [b]. *)
Definition no_worse (matching_features forward : bool) (a b : Qc) : Prop :=
  match matching_features, forward with
  | true, true => (Qcabs (a - half) <= Qcabs (b - half))%Qc
  | true, false => (Qcabs (b - half) <= Qcabs (a - half))%Qc
  | false, true => (b <= a)%Qc
  | false, false => (a <= b)%Qc
  end.

End Policy.
Export Policy.

(* ===================================================================== *)
(** * The numpy operations the module uses *)
(* ===================================================================== *)

Module NumPy.

(** A two-dimensional float array as the code uses [X]: [shape1] is
    [X.shape[1]], [rows] are the samples.  Well-formed when every row has
    [shape1] entries. *)
Record ndarray2 : Type := { shape1 : nat; rows : list (list Qc) }.

Inductive dtype : Type := int64 | float64.

(** A one-dimensional array used as an index: numpy keeps its dtype, and
    refuses a float array as an index even when it is empty. *)
Record index_array : Type := { dt : dtype; items : list nat }.

(** [np.array(l)] for a Python list of ints without a dtype argument: an
    empty list gives an (empty) float64 array. *)
Definition np_array (l : list nat) : index_array :=
  {| dt := match l with [] => float64 | _ => int64 end; items := l |}.

(** [np.array(l, dtype=int)]; an entry [None] cannot be converted. *)
Fixpoint np_array_int (l : list (option nat)) : result (list nat) :=
  match l with
  | [] => Ok []
  | None :: _ =>
      Raise (TypeError "int() argument must be a string or a number, not 'NoneType'")
  | Some i :: rest => r ← np_array_int rest; Ok (i :: r)
  end.

(** [a[idx]] for an integer index array [idx] along axis 0. *)
Fixpoint take_items {A} (a : list A) (idx : list nat) : result (list A) :=
  match idx with
  | [] => Ok []
  | i :: rest =>
      match a !! i with
      | None => Raise (IndexError "index is out of bounds for axis 0")
      | Some x => r ← take_items a rest; Ok (x :: r)
      end
  end.

(** [X[idx]]: the rows [idx] of [X]. *)
Definition take_rows (X : ndarray2) (idx : list nat) : result ndarray2 :=
  r ← take_items (rows X) idx; Ok {| shape1 := shape1 X; rows := r |}.

(** [X[:, test_set]]: the columns [test_set] of [X]. *)
Definition take_cols (X : ndarray2) (test_set : index_array)
  : result ndarray2 :=
  match dt test_set with
  | float64 =>
      Raise (IndexError "arrays used as indices must be of integer (or boolean) type")
  | int64 =>
      if forallb (fun j => bool_decide (j < shape1 X)) (items test_set)
      then Ok {| shape1 := length (items test_set);
                 rows := (fun r => (fun j => default 0%Qc (r !! j))
                                     <$> items test_set) <$> rows X |}
      else Raise (IndexError "index is out of bounds for axis 1")
  end.

(** [P[:, 1]] *)
Definition column1 (P : ndarray2) : result (list Qc) :=
  if bool_decide (1 < shape1 P)
  then Ok ((fun r => default 0%Qc (r !! 1)) <$> rows P)
  else Raise (IndexError "index 1 is out of bounds for axis 1").

(** [a[idx] = vals] for equally long [idx] and [vals], left to right. *)
Fixpoint put_items {A} (a : list A) (idx : list nat) (vals : list A)
  : list A :=
  match idx, vals with
  | i :: idx', v :: vals' => put_items (<[i := v]> a) idx' vals'
  | _, _ => a
  end.

(** [a[idx] = vals] with numpy's checks: the indices are in range, and
    [vals] has one value per index or a single value to broadcast. *)
Definition np_setitem {A} (a : list A) (idx : list nat) (vals : list A)
  : result (list A) :=
  if negb (forallb (fun i => bool_decide (i < length a)) idx) then
    Raise (IndexError "index is out of bounds for axis 0")
  else if bool_decide (length vals = length idx) then
    Ok (put_items a idx vals)
  else
    match vals with
    | [v] => Ok (put_items a idx (replicate (length idx) v))
    | _ => Raise (ValueError "shape mismatch: value array cannot be broadcast to indexing result")
    end.

(** [a[i] = v] on a one-dimensional array. *)
Definition np_set1 {A} (a : list A) (i : nat) (v : A) : result (list A) :=
  if bool_decide (i < length a) then Ok (<[i := v]> a)
  else Raise (IndexError "index is out of bounds for axis 0").

(** [l[i] = v] on a Python list. *)
Definition list_setitem {A} (l : list A) (i : nat) (v : A)
  : result (list A) :=
  if bool_decide (i < length l) then Ok (<[i := v]> l)
  else Raise (IndexError "list assignment index out of range").

(** [l.remove(x)]: drops the first occurrence. *)
Fixpoint list_remove_first (x : nat) (l : list nat) : result (list nat) :=
  match l with
  | [] => Raise (ValueError "list.remove(x): x not in list")
  | y :: rest =>
      if bool_decide (y = x) then Ok rest
      else r ← list_remove_first x rest; Ok (y :: r)
  end.

(** The score matrix [auc_scores], kept by columns: [columns !! s] is
    [auc_scores[:, s]], each of [n_rows] entries. *)
Record score_matrix : Type :=
  { n_rows : nat; columns : list (list float) }.

(** [np.zeros((rows, cols))] *)
Definition np_zeros (rows : nat) (cols : Z) : result score_matrix :=
  if (cols <? 0)%Z then
    Raise (ValueError "negative dimensions are not allowed")
  else
    Ok {| n_rows := rows;
          columns := replicate (Z.to_nat cols)
                               (replicate rows (Finite 0%Qc)) |}.

(** [auc_scores[:, s] = v] *)
Definition set_column (m : score_matrix) (s : nat) (v : list float)
  : result score_matrix :=
  if negb (bool_decide (s < length (columns m))) then
    Raise (IndexError "index is out of bounds for axis 1")
  else if bool_decide (length v = n_rows m) then
    Ok {| n_rows := n_rows m; columns := <[s := v]> (columns m) |}
  else
    match v with
    | [x] => Ok {| n_rows := n_rows m;
                   columns := <[s := replicate (n_rows m) x]> (columns m) |}
    | _ => Raise (ValueError "could not broadcast input array")
    end.

End NumPy.
Export NumPy.

(* ===================================================================== *)
(** * External collaborators *)
(* ===================================================================== *)

(** The classifier protocol the code relies on: [fit] and [predict_proba].
    [C] is the state of one classifier object.  [clf_fit] is the effect of
    [clf.fit(X, y, sample_weight)] on that object; as scikit-learn
    estimators do, [fit] returns [self], so the assignment
    [clf = clf.fit(...)] leaves [clf] bound to the same object.
    [fulfilling] is the outcome of the sanity check of lines 97-103, made by
    [ClassifierCharacteristics] of [disteval.basics], a module outside this
    file; it is taken as a parameter. *)
Class Classifier (C : Type) : Type := {
  fulfilling : C → bool;
  clf_fit : C → ndarray2 → list Qc → option (list Qc) → result C;
  clf_predict_proba : C → ndarray2 → result ndarray2
}.

(** What else the module imports: numpy's random generators, scikit-learn's
    [StratifiedKFold(n_splits, shuffle=True, random_state).split(X, y)] and
    [roc_auc_score], and the order in which a Python set of finished futures
    is iterated ([results.done]), which is some permutation.
    [os_entropy k] is the generator that the [k]-th call of
    [np.random.RandomState(None)] of a run obtains from the operating
    system. *)
Class Environment (R : Type) : Type := {
  RandomState_of_seed : Z → R;
  os_entropy : nat → R;
  StratifiedKFold_split :
    R → Z → ndarray2 → list Qc → result (list (list nat * list nat));
  roc_auc_score : list Qc → list Qc → option (list Qc) → result float;
  done_order : ∀ A : Type, list A → list A;
  done_order_perm : ∀ (A : Type) (l : list A), done_order A l ≡ₚ l
}.

(** The [random_state] argument: [None], an int, or a generator. *)
Inductive random_state_arg (R : Type) : Type :=
| RsNone
| RsInt (seed : Z)
| RsInstance (r : R).
Arguments RsNone {R}.
Arguments RsInt {R} seed.
Arguments RsInstance {R} r.

(* ===================================================================== *)
(** * The world: the classifier object, entropy drawn, calls made *)
(* ===================================================================== *)

(** Calls to the collaborators, recorded in the order they are made. *)
Inductive event : Type :=
| EvInfo (msg : string)
| EvSplit (n_splits : Z)
| EvFit (X_train : ndarray2) (y_train : list Qc) (w : option (list Qc))
| EvPredict (X_test : ndarray2)
| EvAuc (y_true y_score : list Qc) (w : option (list Qc)).

Record World (C : Type) : Type := {
  clf_obj : C;              (* the caller's classifier object *)
  draws : nat;              (* generators drawn from the OS so far *)
  log : list event          (* calls made so far, oldest first *)
}.
Arguments clf_obj {C} _.
Arguments draws {C} _.
Arguments log {C} _.

Definition M (C A : Type) : Type := World C → World C * result A.

#[export] Instance M_ret {C} : MRet (M C) := fun A a w => (w, Ok a).
#[export] Instance M_bind {C} : MBind (M C) := fun A B k m w =>
  match m w with
  | (w', Ok a) => k a w'
  | (w', Raise e) => (w', Raise e)
  end.

Definition action {C A} (f : World C → World C * result A) : M C A := f.
Definition lift {C A} (r : result A) : M C A := fun w => (w, r).
Definition raise {C A} (e : exn) : M C A := fun w => (w, Raise e).

Definition emit {C} (ev : event) : M C unit := fun w =>
  ({| clf_obj := clf_obj w; draws := draws w; log := log w ++ [ev] |}, Ok tt).

(* ===================================================================== *)
(** * The three functions *)
(* ===================================================================== *)

Section Search.

Context {C : Type} `{Classifier C} {R : Type} `{Environment R}.

#[local] Abbreviation M := (M C).

(** [clf = clf.fit(X=X_train, y=y_train, sample_weight=...)]: the object
    is fitted in place. *)
Definition call_fit (X_train : ndarray2) (y_train : list Qc)
           (sample_weight_train : option (list Qc)) : M unit :=
  _ ← emit (EvFit X_train y_train sample_weight_train);
  action (fun w =>
    match clf_fit (clf_obj w) X_train y_train sample_weight_train with
    | Ok c => ({| clf_obj := c; draws := draws w; log := log w |}, Ok tt)
    | Raise e => (w, Raise e)
    end).

(** [clf.predict_proba(X_test)] *)
Definition call_predict_proba (X_test : ndarray2) : M ndarray2 :=
  _ ← emit (EvPredict X_test);
  action (fun w => (w, clf_predict_proba (clf_obj w) X_test)).

Definition call_roc_auc_score (y y_pred : list Qc)
           (sample_weight : option (list Qc)) : M float :=
  _ ← emit (EvAuc y y_pred sample_weight);
  lift (roc_auc_score y y_pred sample_weight).

Definition call_split (random_state : R) (n_splits : Z)
           (X : ndarray2) (y : list Qc)
  : M (list (list nat * list nat)) :=
  _ ← emit (EvSplit n_splits);
  lift (StratifiedKFold_split random_state n_splits X y).

(** [np.random.RandomState(None)]: a generator seeded by the OS. *)
Definition fresh_RandomState : M R := fun w =>
  ({| clf_obj := clf_obj w; draws := S (draws w); log := log w |},
   Ok (os_entropy (draws w))).

(** ** [__single_auc_score__] (lines 153-209) *)

(** The variables the [for] loop leaves bound: [test_idx], [X_test] and
    [sample_weight_test] of the last fold processed. *)
Definition fold_locals : Type := list nat * ndarray2 * option (list Qc).

(** Lines 194-206, the loop over [cv_indices].  [last] holds the loop
    variables of the previous iteration. *)
Fixpoint cv_loop (cv_indices : list (list nat * list nat))
         (X : ndarray2) (y : list Qc) (sample_weight : option (list Qc))
         (last : option fold_locals) : M (option fold_locals) :=
  match cv_indices with
  | [] => mret last
  | (train_idx, test_idx) :: rest =>
      X_train ← lift (take_rows X train_idx);
      X_test ← lift (take_rows X test_idx);
      y_train ← lift (take_items y train_idx);
      sw ← lift (match sample_weight with
                 | None => Ok (None, None)
                 | Some sw =>
                     sw_train ← take_items sw train_idx;
                     sw_test ← take_items sw test_idx;
                     Ok (Some sw_train, Some sw_test)
                 end);
      _ ← call_fit X_train y_train (fst sw);
      cv_loop rest X y sample_weight (Some (test_idx, X_test, snd sw))
  end.

(** Lines 207-208: the statements after the loop, at the function's
    indentation, which see the last fold's variables only. *)
Definition score_after_loop (y : list Qc) (last : option fold_locals)
  : M float :=
  match last with
  | None => raise (UnboundLocalError "X_test")
  | Some (test_idx, X_test, sample_weight_test) =>
      proba ← call_predict_proba X_test;
      p1 ← lift (column1 proba);
      y_pred ← lift (np_setitem (replicate (length y) 0%Qc) test_idx p1);
      call_roc_auc_score y y_pred sample_weight_test
  end.

Definition __single_auc_score__ (feature_i : nat)
           (cv_indices : list (list nat * list nat))
           (X : ndarray2) (y : list Qc) (sample_weight : option (list Qc))
  : M (nat * float) :=
  last ← cv_loop cv_indices X y sample_weight None;
  auc_score ← score_after_loop y last;
  mret (feature_i, auc_score).

(** ** [get_all_auc_scores] (lines 212-328) *)

(** Lines 264-265. [np.random.RandomState(seed)] accepts 32-bit seeds. *)
Definition make_RandomState (random_state : random_state_arg R) : M R :=
  match random_state with
  | RsInstance r => mret r
  | RsNone => fresh_RandomState
  | RsInt seed =>
      if bool_decide (0 ≤ seed < 2 ^ 32)%Z
      then mret (RandomState_of_seed seed)
      else raise (ValueError "Seed must be between 0 and 2**32 - 1")
  end.

(** Lines 274-275: the candidates, in increasing order. *)
Definition test_features_of (X : ndarray2) (selected_features : list nat)
  : list nat :=
  filter (fun i => i ∉ selected_features) (seq 0 (shape1 X)).

(** Lines 279-285 (and again 293-299): the columns a candidate is
    evaluated on. *)
Definition test_set_of (forward : bool)
           (selected_features test_features : list nat) (feature_i : nat)
  : result index_array :=
  if forward then
    Ok {| dt := int64;
          items := merge_sort (≤) (selected_features ++ [feature_i]) |}
  else
    set_i ← list_remove_first feature_i test_features;
    Ok (np_array set_i).

(** Lines 277-289: [process_args], built and never used; building it
    indexes [X] once per candidate. *)
Fixpoint build_process_args (forward : bool) (X : ndarray2)
         (selected_features test_features todo : list nat)
  : result (list (nat * ndarray2)) :=
  match todo with
  | [] => Ok []
  | feature_i :: rest =>
      test_set ← test_set_of forward selected_features test_features
                             feature_i;
      X_i ← take_cols X test_set;
      r ← build_process_args forward X selected_features test_features
                             rest;
      Ok ((feature_i, X_i) :: r)
  end.

(** Lines 291-299: the dict [test_sets], in insertion order (its keys
    are the distinct candidates). *)
Fixpoint build_test_sets (forward : bool)
         (selected_features test_features todo : list nat)
  : result (list (nat * index_array)) :=
  match todo with
  | [] => Ok []
  | feature_i :: rest =>
      test_set ← test_set_of forward selected_features test_features
                             feature_i;
      r ← build_test_sets forward selected_features test_features rest;
      Ok ((feature_i, test_set) :: r)
  end.

(** [executor.submit(__single_auc_score__, ...)]: the arguments are
    pickled, so the worker fits a copy of the classifier; the parent's
    object is as it was.  The future keeps the worker's result or its
    exception. *)
Definition submit (job : M (nat * float)) : M (result (nat * float)) :=
  fun w =>
    let '(w', r) := job w in
    ({| clf_obj := clf_obj w; draws := draws w'; log := log w' |}, Ok r).

(** Lines 306-313 *)
Fixpoint submit_all (cv_indices : list (list nat * list nat))
         (X : ndarray2) (y : list Qc) (sample_weight : option (list Qc))
         (test_sets : list (nat * index_array))
  : M (list (result (nat * float))) :=
  match test_sets with
  | [] => mret []
  | (feature_i, test_set) :: rest =>
      X_i ← lift (take_cols X test_set);
      future ← submit (__single_auc_score__ feature_i cv_indices X_i y
                                            sample_weight);
      futures ← submit_all cv_indices X y sample_weight rest;
      mret (future :: futures)
  end.

(** Lines 315-317: [future_i.result()] re-raises a worker's exception. *)
Fixpoint collect (done : list (result (nat * float)))
         (auc_scores : list float) : result (list float) :=
  match done with
  | [] => Ok auc_scores
  | future_i :: rest =>
      '(feature_i, auc) ← future_i;
      auc_scores' ← np_set1 auc_scores feature_i auc;
      collect rest auc_scores'
  end.

(** Lines 319-327: the branch for [n_jobs <= 1], where [auc_scores] is
    rebound to an empty Python list before the loop. *)
Fixpoint score_sequentially (cv_indices : list (list nat * list nat))
         (X : ndarray2) (y : list Qc) (sample_weight : option (list Qc))
         (test_sets : list (nat * index_array)) (auc_scores : list float)
  : M (list float) :=
  match test_sets with
  | [] => mret auc_scores
  | (feature_i, test_set) :: rest =>
      X_i ← lift (take_cols X test_set);
      r ← __single_auc_score__ feature_i cv_indices X_i y sample_weight;
      auc_scores' ← lift (list_setitem auc_scores feature_i (snd r));
      score_sequentially cv_indices X y sample_weight rest auc_scores'
  end.

Definition get_all_auc_scores (selected_features : list (option nat))
           (X : ndarray2) (y : list Qc) (sample_weight : option (list Qc))
           (cv_steps n_jobs : Z) (forward : bool)
           (random_state : random_state_arg R) : M (list float) :=
  random_state ← make_RandomState random_state;
  selected_features ← lift (np_array_int selected_features);
  if bool_decide (cv_steps < 2)%Z then
    raise (ValueError "'cv_steps' must be 2 or higher")
  else
    cv_indices ← call_split random_state cv_steps X y;
    let test_features := test_features_of X selected_features in
    _ ← lift (build_process_args forward X selected_features test_features
                                 test_features);
    test_sets ← lift (build_test_sets forward selected_features
                                      test_features test_features);
    let auc_scores := replicate (shape1 X) NaN in
    if bool_decide (1 < n_jobs)%Z then
      futures ← submit_all cv_indices X y sample_weight test_sets;
      lift (collect (done_order _ futures) auc_scores)
    else
      score_sequentially cv_indices X y sample_weight test_sets [].

(** ** [recursive_feature_selection_roc_auc] (lines 17-149) *)

(** Lines 113-148: one pass through the body of the [while] loop.  No
    [random_state] is passed on, so the stage runs with its default. *)
Definition loop_body (X : ndarray2) (y : list Qc)
           (sample_weight : option (list Qc)) (cv_steps n_jobs : Z)
           (forward matching_features : bool)
           (selected_features : list (option nat))
           (auc_scores : score_matrix)
  : M (list (option nat) * score_matrix) :=
  auc_scores_i ← get_all_auc_scores selected_features X y sample_weight
                                    cv_steps n_jobs forward RsNone;
  let index_best := select_best matching_features forward auc_scores_i in
  auc_scores' ← lift (set_column auc_scores (length selected_features)
                                 auc_scores_i);
  mret (selected_features ++ [index_best], auc_scores').

(** Line 112, [while len(selected_features) != n_features], with fuel:
    [None] means the fuel did not suffice. *)
Fixpoint search_loop (fuel : nat) (X : ndarray2) (y : list Qc)
         (sample_weight : option (list Qc)) (n_features cv_steps n_jobs : Z)
         (forward matching_features : bool)
         (selected_features : list (option nat))
         (auc_scores : score_matrix) (w : World C)
  : option (World C * result (list (option nat) * score_matrix)) :=
  if bool_decide (Z.of_nat (length selected_features) ≠ n_features) then
    match fuel with
    | 0 => None
    | S fuel' =>
        match loop_body X y sample_weight cv_steps n_jobs forward
                        matching_features selected_features auc_scores w
        with
        | (w', Ok (selected_features', auc_scores')) =>
            search_loop fuel' X y sample_weight n_features cv_steps n_jobs
                        forward matching_features
                        selected_features' auc_scores' w'
        | (w', Raise e) => Some (w', Raise e)
        end
    end
  else Some (w, Ok (selected_features, auc_scores)).

(** Lines 105-108 *)
Definition clamp_n_features (X : ndarray2) (n_features : Z) : Z :=
  if bool_decide (Z.of_nat (shape1 X) < n_features)%Z
  then Z.of_nat (shape1 X) else n_features.

Definition info_n_features_reduced : string :=
  " 'n_features' higher than total number of features. 'n_features' reduced!".

Definition recursive_feature_selection_roc_auc (fuel : nat)
           (X : ndarray2) (y : list Qc) (sample_weight : option (list Qc))
           (n_features cv_steps n_jobs : Z)
           (forward matching_features : bool) (w : World C)
  : option (World C * result (list (option nat) * score_matrix)) :=
  if negb (fulfilling (clf_obj w)) then
    Some (w, Raise (AssertionError "Classifier sanity check failed!"))
  else
    let w1 :=
      if bool_decide (Z.of_nat (shape1 X) < n_features)%Z
      then fst (emit (EvInfo info_n_features_reduced) w) else w in
    let n_features := clamp_n_features X n_features in
    match np_zeros (shape1 X) n_features with
    | Raise e => Some (w1, Raise e)
    | Ok auc_scores =>
        search_loop fuel X y sample_weight n_features cv_steps n_jobs
                    forward matching_features [] auc_scores w1
    end.

End Search.

(* ===================================================================== *)
(** * Vocabulary of the statements *)
(* ===================================================================== *)

(** What the running best stands for after a prefix [pre] of the array:
    nothing when no entry was finite; otherwise an entry of [pre] that no
    finite entry beats and that no earlier entry equals in merit. *)
Definition best_of (matching_features forward : bool)
           (pre : list float) (best : option (Qc * nat)) : Prop :=
  match best with
  | None => ∀ j a, pre !! j = Some (Finite a) → False
  | Some (value_best, index_best) =>
      pre !! index_best = Some (Finite value_best)
      ∧ (∀ j a, pre !! j = Some (Finite a) → no_worse matching_features forward value_best a)
      ∧ (∀ j a, pre !! j = Some (Finite a) →
                no_worse matching_features forward a value_best →
                index_best ≤ j)
  end.

Section Vocabulary.

Context {C : Type} `{Classifier C} {R : Type} `{Environment R}.

(** [keeps proj m]: running [m] leaves the component [proj] of the world
    as it was, whether [m] returns or raises. *)
Definition keeps {A B} (proj : World C → B) (m : M C A) : Prop :=
  ∀ w, proj (fst (m w)) = proj w.

(** [scored y f r]: [r] is what a scorer run for candidate [f] returned,
    an index paired with a value of [roc_auc_score] on the labels [y]. *)
Definition scored (y : list Qc) (f : nat) (r : nat * float) : Prop :=
  fst r = f
  ∧ ∃ y_pred sample_weight_test,
      roc_auc_score y y_pred sample_weight_test = Ok (snd r).

(** The states of the [while] loop of one run: [loop_reaches ... k sel m w]
    says that after [k] completed passes through the body, started with an
    empty selection, the matrix [m0] and the world [w0], the loop is at its
    head with the selection [sel], the matrix [m] and the world [w]. *)
Inductive loop_reaches (X : ndarray2) (y : list Qc)
          (sample_weight : option (list Qc)) (n_features cv_steps n_jobs : Z)
          (forward matching_features : bool)
          (m0 : score_matrix) (w0 : World C)
  : nat → list (option nat) → score_matrix → World C → Prop :=
| reaches_start :
    loop_reaches X y sample_weight n_features cv_steps n_jobs forward
                 matching_features m0 w0 0 [] m0 w0
| reaches_step k sel m w sel' m' w' :
    loop_reaches X y sample_weight n_features cv_steps n_jobs forward
                 matching_features m0 w0 k sel m w →
    Z.of_nat (length sel) ≠ n_features →
    loop_body X y sample_weight cv_steps n_jobs forward matching_features
              sel m w = (w', Ok (sel', m')) →
    loop_reaches X y sample_weight n_features cv_steps n_jobs forward
                 matching_features m0 w0 (S k) sel' m' w'.

(** Fitting the folds of a plan one after the other on ONE classifier
    object, starting from the state [c]. *)
Fixpoint fit_in_sequence (c : C) (cv_indices : list (list nat * list nat))
         (X : ndarray2) (y : list Qc) (sample_weight : option (list Qc))
  : result C :=
  match cv_indices with
  | [] => Ok c
  | (train_idx, test_idx) :: rest =>
      X_train ← take_rows X train_idx;
      _ ← take_rows X test_idx;
      y_train ← take_items y train_idx;
      sw ← match sample_weight with
           | None => Ok (None, None)
           | Some sw =>
               sw_train ← take_items sw train_idx;
               sw_test ← take_items sw test_idx;
               Ok (Some sw_train, Some sw_test)
           end;
      c' ← clf_fit c X_train y_train (fst sw);
      fit_in_sequence c' rest X y sample_weight
  end.

End Vocabulary.

(* ===================================================================== *)
(** * Vocabulary of the further properties *)
(* ===================================================================== *)

(** [np.isfinite] as a property of an entry. *)
Definition finite_entry (x : float) : Prop := isfinite x = true.

#[export] Instance finite_entry_dec x : Decision (finite_entry x).
Proof. unfold finite_entry. apply _. Defined.

(** The calls a candidate evaluation makes: to the classifier and to the
    metric. *)
Definition is_scoring_call (ev : event) : Prop :=
  match ev with
  | EvFit _ _ _ | EvPredict _ | EvAuc _ _ _ => True
  | EvInfo _ | EvSplit _ => False
  end.

(** [fits_folds X y cv_indices evs]: the calls [evs] are one [fit] per fold
    of the plan, in the plan's order, each on the fold's training rows of
    [X] and [y]. *)
Definition fits_folds (X : ndarray2) (y : list Qc)
           (cv_indices : list (list nat * list nat)) (evs : list event)
  : Prop :=
  Forall2 (fun fold ev =>
             ∃ X_train y_train sw_train,
               ev = EvFit X_train y_train sw_train
               ∧ take_rows X (fst fold) = Ok X_train
               ∧ take_items y (fst fold) = Ok y_train)
          cv_indices evs.

(** [emits P m]: whatever [m] does, the calls it adds to the log all
    satisfy [P]. *)
Definition emits {C A} (P : event → Prop) (m : M C A) : Prop :=
  ∀ w, ∃ evs, log (fst (m w)) = log w ++ evs ∧ Forall P evs.

(** The environment [env] on a machine whose operating system hands out
    the generators [entropy]. *)
Definition with_entropy {R} (env : Environment R) (entropy : nat → R)
  : Environment R :=
  {| RandomState_of_seed := @RandomState_of_seed R env;
     os_entropy := entropy;
     StratifiedKFold_split := @StratifiedKFold_split R env;
     roc_auc_score := @roc_auc_score R env;
     done_order := @done_order R env;
     done_order_perm := @done_order_perm R env |}.

(** The environment [env] with another order [d] in which the finished
    futures of a pool are iterated. *)
Definition with_done_order {R} (env : Environment R)
           (d : ∀ A : Type, list A → list A)
           (Hd : ∀ (A : Type) (l : list A), d A l ≡ₚ l)
  : Environment R :=
  {| RandomState_of_seed := @RandomState_of_seed R env;
     os_entropy := @os_entropy R env;
     StratifiedKFold_split := @StratifiedKFold_split R env;
     roc_auc_score := @roc_auc_score R env;
     done_order := d;
     done_order_perm := Hd |}.

(** The futures iterated in the order of their submission. *)
Definition submission_order (A : Type) (l : list A) : list A := l.

Definition submission_order_perm (A : Type) (l : list A)
  : submission_order A l ≡ₚ l := Permutation_refl l.

(** The calls to the collaborators, as opposed to the messages logged. *)
Definition is_collaborator_call (ev : event) : Prop :=
  match ev with
  | EvInfo _ => False
  | EvSplit _ | EvFit _ _ _ | EvPredict _ | EvAuc _ _ _ => True
  end.


(* ===================================================================== *)
(** * A concrete setting: a small classifier, splitter and AUC *)
(* ===================================================================== *)

(** Executable collaborators, to run the functions on concrete data. *)
Module Demo.

Definition Qc_of_nat (n : nat) : Qc := Q2Qc (Z.of_nat n # 1).

Definition Qc_sum (l : list Qc) : Qc := foldr Qcplus 0%Qc l.

Definition Qc_mean (l : list Qc) : Qc :=
  match l with
  | [] => 0%Qc
  | _ => (Qc_sum l / Qc_of_nat (length l))%Qc
  end.

(** A threshold classifier on the sum of a row's features.  Like an
    estimator with [warm_start], [fit] starts from what the object already
    holds: the threshold is averaged with the previous one, and the object
    counts how often it was fitted. *)
Record stump : Type := { n_fits : nat; threshold : Qc }.

Definition fresh_stump : stump := {| n_fits := 0; threshold := 0%Qc |}.

Definition stump_fit (c : stump) (X : ndarray2) (y : list Qc)
           (sample_weight : option (list Qc)) : result stump :=
  let m := Qc_mean (Qc_sum <$> rows X) in
  Ok {| n_fits := S (n_fits c);
        threshold := match n_fits c with
                     | 0 => m
                     | _ => ((threshold c + m) / Qc_of_nat 2)%Qc
                     end |}.

Definition stump_predict_proba (c : stump) (X : ndarray2)
  : result ndarray2 :=
  Ok {| shape1 := 2;
        rows := (fun r => if bool_decide (threshold c < Qc_sum r)%Qc
                          then [0%Qc; 1%Qc] else [1%Qc; 0%Qc])
                  <$> rows X |}.

#[export] Instance stump_classifier : Classifier stump := {|
  fulfilling := fun _ => true;
  clf_fit := stump_fit;
  clf_predict_proba := stump_predict_proba
|}.

(** A splitter: sample [i] is tested in fold [(i + seed) mod n_splits].
    The generator is its seed. *)
Definition fold_of (seed : Z) (n_splits : Z) (i : nat) : Z :=
  ((Z.of_nat i + seed) `mod` n_splits)%Z.

Definition demo_split (seed : Z) (n_splits : Z) (X : ndarray2)
           (y : list Qc) : result (list (list nat * list nat)) :=
  if bool_decide (n_splits < 2)%Z then
    Raise (ValueError "k-fold cross-validation requires at least one train/test split")
  else
    Ok ((fun j : nat =>
           (filter (fun i => fold_of seed n_splits i ≠ Z.of_nat j)
                   (seq 0 (length y)),
            filter (fun i => fold_of seed n_splits i = Z.of_nat j)
                   (seq 0 (length y))))
          <$> seq 0 (Z.to_nat n_splits)).

(** The area under the ROC curve by counting pairs: a positive sample
    above a negative one counts 1, a tie 1/2; pairs are weighted by the
    product of the sample weights. *)
Definition pair_score (p n : Qc) : Qc :=
  if bool_decide (n < p)%Qc then 1%Qc
  else if bool_decide (p = n) then half else 0%Qc.

Definition demo_auc (y_true y_score : list Qc)
           (sample_weight : option (list Qc)) : result float :=
  let w := default (replicate (length y_true) 1%Qc) sample_weight in
  if negb (bool_decide (length y_score = length y_true)
           && bool_decide (length w = length y_true)) then
    Raise (ValueError "Found input variables with inconsistent numbers of samples")
  else
    let samples := zip y_true (zip y_score w) in
    let pos := filter (fun s => (0 < fst s)%Qc) samples in
    let neg := filter (fun s => ¬ (0 < fst s)%Qc) samples in
    let pairs := p ← pos; n ← neg; [(snd p, snd n)] in
    let total := Qc_sum ((fun pn => snd (fst pn) * snd (snd pn))%Qc
                           <$> pairs) in
    if bool_decide (pos = []) || bool_decide (neg = []) then
      Raise (ValueError "Only one class present in y_true. ROC AUC score is not defined in that case.")
    else if bool_decide (total = 0%Qc) then
      Raise (ValueError "weights sum to zero")
    else
      Ok (Finite
            (Qc_sum ((fun pn => snd (fst pn) * snd (snd pn)
                                * pair_score (fst (fst pn)) (fst (snd pn)))%Qc
                       <$> pairs) / total)%Qc).

(** The environment of a run whose [k]-th generator from the OS is seeded
    with [entropy k]; finished futures are iterated last to first. *)
#[export] Instance demo_env (entropy : nat → Z) : Environment Z := {|
  RandomState_of_seed := fun seed => seed;
  os_entropy := entropy;
  StratifiedKFold_split := demo_split;
  roc_auc_score := demo_auc;
  done_order := fun A l => reverse l;
  done_order_perm := fun A l => reverse_Permutation l
|}.

(** Six samples, four features, labels [0,0,0,1,1,1]. *)
Definition q (n : Z) : Qc := Q2Qc (n # 1).

Definition X6 : ndarray2 :=
  {| shape1 := 4;
     rows := [ [q 0; q 5; q 1; q 2];
               [q 1; q 3; q 0; q 2];
               [q 0; q 4; q 1; q 2];
               [q 3; q 4; q 0; q 2];
               [q 4; q 2; q 1; q 2];
               [q 5; q 5; q 0; q 2] ] |}.

Definition y6 : list Qc := [q 0; q 0; q 0; q 1; q 1; q 1].

Definition world0 : World stump :=
  {| clf_obj := fresh_stump; draws := 0; log := [] |}.

(** The first feature alone, as [X[:, [0]]]. *)
Definition X6_feature0 : ndarray2 :=
  {| shape1 := 1;
     rows := [ [q 0]; [q 1]; [q 0]; [q 3]; [q 4]; [q 5] ] |}.

(** The two folds [demo_split 0 2] makes of six samples. *)
Definition plan2 : list (list nat * list nat) :=
  [ ([1; 3; 5], [0; 2; 4]); ([0; 2; 4], [1; 3; 5]) ].

(** A generator seeded with 0 at every draw, and one seeded with 1. *)
Definition entropy0 : nat → Z := fun _ => 0%Z.
Definition entropy1 : nat → Z := fun _ => 1%Z.

(** What a run returned, stripped of the world: the selected features. *)
Definition selected_of
           (run : option (World stump
                          * result (list (option nat) * score_matrix)))
  : option (list (option nat)) :=
  match run with
  | Some (_, Ok (selected_features, _)) => Some selected_features
  | _ => None
  end.

(** The score matrix a run returned, as plain fractions ([None] for a
    value that is not finite), column by column. *)
Definition matrix_of
           (run : option (World stump
                          * result (list (option nat) * score_matrix)))
  : option (list (list (option Q))) :=
  match run with
  | Some (_, Ok (_, auc_scores)) =>
      Some ((fun col : list float =>
               (fun x : float => match x with
                                 | Finite a => Some (this a)
                                 | _ => None
                                 end) <$> col) <$> columns auc_scores)
  | _ => None
  end.

Definition matrix_or_empty
           (run : option (World stump
                          * result (list (option nat) * score_matrix)))
  : score_matrix :=
  match run with
  | Some (_, Ok (_, auc_scores)) => auc_scores
  | _ => {| n_rows := 0; columns := [] |}
  end.

Definition world_or (w : World stump)
           (run : option (World stump
                          * result (list (option nat) * score_matrix)))
  : World stump :=
  match run with
  | Some (w', _) => w'
  | None => w
  end.

End Demo.

(** Runs of the three functions on the concrete data. *)
Module Runs.

Import Demo.

(** The scorer on the first feature, with the two folds of [plan2]. *)
Definition scorer_run : World stump * result (nat * float) :=
  __single_auc_score__ (H0 := demo_env entropy0)
                       0 plan2 X6_feature0 y6 None world0.

(** The stage and the search with and without a process pool. *)
Definition stage_run (n_jobs : Z) : World stump * result (list float) :=
  get_all_auc_scores (H0 := demo_env entropy0)
                     [] X6 y6 None 2 n_jobs true (RsInt 0) world0.

Definition search_run (fuel : nat) (n_features n_jobs : Z)
  : option (World stump * result (list (option nat) * score_matrix)) :=
  recursive_feature_selection_roc_auc (H0 := demo_env entropy0)
    fuel X6 y6 None n_features 2 n_jobs true false world0.

(** The states of the loop of [search_run _ 2 2], one per step. *)
Definition loop_state : Type :=
  list (option nat) * score_matrix * World stump.

Definition matrix0 : score_matrix :=
  {| n_rows := 4; columns := replicate 2 (replicate 4 (Finite 0%Qc)) |}.

Definition next_state (st : loop_state) : loop_state :=
  match loop_body (H0 := demo_env entropy0) X6 y6 None 2 2 true false
                  st.1.1 st.1.2 st.2 with
  | (w', Ok (sel', m')) => (sel', m', w')
  | (_, Raise _) => st
  end.

Definition state0 : loop_state := ([], matrix0, world0).
Definition state1 : loop_state := next_state state0.
Definition state2 : loop_state := next_state state1.

End Runs.

(** Further runs on the concrete data. *)
Module FurtherRuns.

Import Demo Runs.

(** The score array of the first step of the concrete search, evaluated by
    the pool. *)
Definition pool_scores : list float :=
  match snd (stage_run 2) with
  | Ok scores => scores
  | Raise _ => []
  end.

(** Six sample weights for the concrete data. *)
Definition weights6 : list Qc := [q 1; q 1; q 2; q 1; q 2; q 1].

Definition weighted_scorer_run : World stump * result (nat * float) :=
  __single_auc_score__ (H0 := demo_env entropy0)
                       0 plan2 X6_feature0 y6 (Some weights6) world0.

(** The selection and score matrix of the concrete search with a pool. *)
Definition pool_search_matrix : score_matrix :=
  matrix_or_empty (search_run 5 2 2).

End FurtherRuns.


(* ===================================================================== *)
(** * Properties of the selection policy *)
(* ===================================================================== *)

Section PolicyFacts.

Variables matching_features forward : bool.

#[local] Abbreviation replaces' := (replaces matching_features forward).
#[local] Abbreviation no_worse' := (no_worse matching_features forward).
#[local] Abbreviation best_of' := (best_of matching_features forward).

Lemma no_worse_refl a : no_worse' a a.
Proof.
  unfold no_worse; destruct matching_features, forward; apply Qcle_refl.
Qed.

Lemma no_worse_trans a b c :
  no_worse' a b → no_worse' b c → no_worse' a c.
Proof.
  unfold no_worse; destruct matching_features, forward;
    eauto using Qcle_trans.
Qed.

(** The strict comparison of the code is the negation of [no_worse]. *)
Lemma replaces_true a b : replaces' a b = true ↔ ¬ no_worse' b a.
Proof.
  unfold replaces, no_worse; destruct matching_features, forward;
    rewrite bool_decide_eq_true; apply Qclt_nge.
Qed.

Lemma replaces_false a b : replaces' a b = false ↔ no_worse' b a.
Proof.
  unfold replaces, no_worse; destruct matching_features, forward;
    rewrite bool_decide_eq_false; symmetry; apply Qcle_ngt.
Qed.

Lemma replaces_no_worse a b : replaces' a b = true → no_worse' a b.
Proof.
  unfold replaces, no_worse; destruct matching_features, forward;
    rewrite bool_decide_eq_true; apply Qclt_le_weak.
Qed.

Lemma lookup_snoc_inv {A} (pre : list A) (x y : A) j :
  (pre ++ [x]) !! j = Some y →
  pre !! j = Some y ∨ (j = length pre ∧ y = x).
Proof.
  intros Hj. destruct (decide (j < length pre)) as [Hlt|Hge].
  - left. by rewrite lookup_app_l in Hj.
  - right. rewrite lookup_app_r in Hj by lia.
    destruct (j - length pre) as [|k] eqn:E; simpl in Hj; [|done].
    split; [lia | congruence].
Qed.

Lemma select_step_best_of pre x best :
  best_of' pre best →
  best_of' (pre ++ [x])
          (select_step matching_features forward (length pre) x best).
Proof.
  intros Hinv. destruct x as [a| |neg]; simpl.
  - (* a finite entry *)
    destruct best as [[vb ib]|]; simpl.
    + destruct Hinv as (Hib & Hopt & Hfirst).
      destruct (replaces' a vb) eqn:Hr; simpl.
      * (* the new entry is strictly better *)
        split; [by rewrite lookup_app_r, Nat.sub_diag by lia|].
        split.
        -- intros j b [Hj|[-> [= ->]]]%lookup_snoc_inv.
           ++ eapply no_worse_trans;
                [by apply replaces_no_worse | by eapply Hopt].
           ++ apply no_worse_refl.
        -- intros j b [Hj|[-> _]]%lookup_snoc_inv Hb; [|lia].
           apply replaces_true in Hr. destruct Hr.
           eapply no_worse_trans; [by eapply Hopt | done].
      * (* the running best stays *)
        apply replaces_false in Hr.
        split; [by rewrite lookup_app_l by (by eapply lookup_lt_Some)|].
        split.
        -- intros j b [Hj|[-> [= ->]]]%lookup_snoc_inv; eauto.
        -- intros j b [Hj|[-> _]]%lookup_snoc_inv Hb; eauto.
           apply lookup_lt_Some in Hib. lia.
    + (* the first finite entry seeds the running best *)
      assert (replaces' a a = false) as ->
          by (apply replaces_false, no_worse_refl).
      split; [by rewrite lookup_app_r, Nat.sub_diag by lia|].
      split.
      * intros j b [Hj|[-> [= ->]]]%lookup_snoc_inv;
          [by destruct (Hinv j b) | apply no_worse_refl].
      * intros j b [Hj|[-> _]]%lookup_snoc_inv _;
          [by destruct (Hinv j b) | lia].
  - (* nan: skipped *)
    destruct best as [[vb ib]|]; simpl in *.
    + destruct Hinv as (Hib & Hopt & Hfirst).
      split; [by rewrite lookup_app_l by (by eapply lookup_lt_Some)|].
      split; intros j b [Hj|[-> [=]]]%lookup_snoc_inv; eauto.
    + intros j b [Hj|[-> [=]]]%lookup_snoc_inv; eauto.
  - (* an infinity: skipped *)
    destruct best as [[vb ib]|]; simpl in *.
    + destruct Hinv as (Hib & Hopt & Hfirst).
      split; [by rewrite lookup_app_l by (by eapply lookup_lt_Some)|].
      split; intros j b [Hj|[-> [=]]]%lookup_snoc_inv; eauto.
    + intros j b [Hj|[-> [=]]]%lookup_snoc_inv; eauto.
Qed.

Lemma select_loop_best_of rest : ∀ pre best,
  best_of' pre best →
  best_of' (pre ++ rest)
          (select_loop matching_features forward (length pre) rest best).
Proof.
  induction rest as [|x rest IH]; intros pre best Hinv; simpl.
  - by rewrite app_nil_r.
  - replace (pre ++ x :: rest) with ((pre ++ [x]) ++ rest)
      by (by rewrite <- app_assoc).
    replace (S (length pre)) with (length (pre ++ [x]))
      by (rewrite length_app; simpl; lia).
    apply IH. by apply select_step_best_of.
Qed.

Lemma select_best_None scores :
  select_best matching_features forward scores = None →
  ∀ j a, scores !! j = Some (Finite a) → False.
Proof.
  unfold select_best. intros Hn.
  pose proof (select_loop_best_of scores [] None) as Hb.
  simpl in Hb.
  destruct (select_loop matching_features forward 0 scores None); [done|].
  apply Hb. by intros j a.
Qed.

Lemma select_best_Some scores index_best :
  select_best matching_features forward scores = Some index_best →
  ∃ value_best,
    scores !! index_best = Some (Finite value_best)
    ∧ (∀ j a, scores !! j = Some (Finite a) → no_worse' value_best a)
    ∧ (∀ j a, scores !! j = Some (Finite a) → no_worse' a value_best →
              index_best ≤ j).
Proof.
  unfold select_best. intros Hs.
  pose proof (select_loop_best_of scores [] None) as Hb.
  simpl in Hb.
  destruct (select_loop matching_features forward 0 scores None)
    as [[vb ib]|]; [|done].
  simpl in Hs. injection Hs as ->. exists vb. apply Hb. by intros j a.
Qed.

End PolicyFacts.



(* ===================================================================== *)
(** * Reasoning about computations in [M] *)
(* ===================================================================== *)

Section MonadFacts.

Context {C : Type}.

#[local] Abbreviation M := (M C).

Lemma bind_unfold {A B} (m : M A) (k : A → M B) w :
  (m ≫= k) w = match m w with
               | (w', Ok a) => k a w'
               | (w', Raise e) => (w', Raise e)
               end.
Proof. reflexivity. Qed.

Lemma bind_Ok_inv {A B} (m : M A) (k : A → M B) w w' b :
  (m ≫= k) w = (w', Ok b) →
  ∃ w1 a, m w = (w1, Ok a) ∧ k a w1 = (w', Ok b).
Proof.
  rewrite bind_unfold. destruct (m w) as [w1 [a|e]]; [eauto|done].
Qed.

Lemma lift_Ok_inv {A} (r : result A) (w w' : World C) a :
  lift r w = (w', Ok a) → w' = w ∧ r = Ok a.
Proof. unfold lift. by intros [= -> ->]. Qed.

Lemma result_bind_Ok_inv {A B} (r : result A) (k : A → result B) b :
  r ≫= k = Ok b → ∃ a, r = Ok a ∧ k a = Ok b.
Proof. destruct r as [a|e]; [eauto|done]. Qed.

Lemma keeps_ret {A B} (proj : World C → B) (a : A) : keeps proj (mret a).
Proof. by intros w. Qed.

Lemma keeps_lift {A B} (proj : World C → B) (r : result A) :
  keeps proj (lift r).
Proof. by intros w. Qed.

Lemma keeps_raise {A B} (proj : World C → B) e :
  keeps proj (raise e : M A).
Proof. by intros w. Qed.

Lemma keeps_bind {A A' B} (proj : World C → B) (m : M A) (k : A → M A') :
  keeps proj m → (∀ a, keeps proj (k a)) → keeps proj (m ≫= k).
Proof.
  intros Hm Hk w. rewrite bind_unfold. specialize (Hm w).
  destruct (m w) as [w1 [a|e]]; simpl in *; [|done].
  by rewrite Hk.
Qed.

Lemma keeps_emit_clf ev : keeps clf_obj (emit ev : M unit).
Proof. by intros w. Qed.

Lemma keeps_emit_draws ev : keeps draws (emit ev : M unit).
Proof. by intros w. Qed.

End MonadFacts.

Create HintDb keeps.

#[export] Hint Resolve keeps_ret keeps_lift keeps_raise keeps_emit_clf
  keeps_emit_draws : keeps.

(** Splits a hypothesis [(... ≫= ...) w = (w', Ok b)] into its steps. *)
Ltac bind_inv H :=
  repeat match type of H with
    | (_ ≫= _) _ = (_, Ok _) =>
        let w1 := fresh "w" in
        let a := fresh "a" in
        let H1 := fresh "Hstep" in
        apply bind_Ok_inv in H as (w1 & a & H1 & H)
    end.

(* ===================================================================== *)
(** * The evaluation stage *)
(* ===================================================================== *)

Section StageFacts.

Context {C : Type} `{Classifier C} {R : Type} `{Environment R}.

#[local] Abbreviation M := (M C).

Lemma np_array_int_Ok selected sel :
  np_array_int selected = Ok sel → selected = Some <$> sel.
Proof.
  revert sel. induction selected as [|[i|] rest IH]; intros sel Hs;
    simpl in Hs.
  - by injection Hs as <-.
  - apply result_bind_Ok_inv in Hs as (r & Hr & [= <-]).
    rewrite fmap_cons. f_equal. by apply IH.
  - done.
Qed.

Lemma np_array_int_Some sel : np_array_int (Some <$> sel) = Ok sel.
Proof.
  induction sel as [|i sel IH]; [done|].
  change (np_array_int (Some <$> sel) ≫= (λ r, Ok (i :: r)) = Ok (i :: sel)).
  by rewrite IH.
Qed.

Lemma build_test_sets_fst forward sel tf todo ts :
  build_test_sets forward sel tf todo = Ok ts → ts.*1 = todo.
Proof.
  revert ts. induction todo as [|f todo IH]; intros ts Hb; simpl in Hb.
  - by injection Hb as <-.
  - apply result_bind_Ok_inv in Hb as (t & _ & Hb).
    apply result_bind_Ok_inv in Hb as (r & Hr & [= <-]).
    rewrite fmap_cons. simpl. f_equal. by apply IH.
Qed.

Lemma elem_of_test_features X sel i :
  i ∈ test_features_of X sel ↔ i < shape1 X ∧ i ∉ sel.
Proof.
  unfold test_features_of. rewrite list_elem_of_filter, elem_of_seq.
  split; intros []; split; done || lia.
Qed.

Lemma NoDup_test_features X sel : NoDup (test_features_of X sel).
Proof. apply NoDup_filter, NoDup_seq. Qed.

(** ** The branch for [n_jobs <= 1] *)

(** With a candidate to score, the sequential loop ends in an exception:
    if nothing fails before, the first assignment [auc_scores[feature_i] =
    auc] hits the empty list that line 319 put in place of the array. *)
Lemma score_sequentially_raises cv_indices X y sample_weight test_sets w :
  test_sets ≠ [] →
  ∃ w' e, score_sequentially cv_indices X y sample_weight test_sets [] w
          = (w', Raise e).
Proof.
  destruct test_sets as [|[feature_i test_set] rest]; [done|]. intros _.
  simpl. rewrite bind_unfold. unfold lift at 1.
  destruct (take_cols X test_set) as [X_i|e]; [|eauto].
  rewrite bind_unfold.
  destruct (__single_auc_score__ _ _ _ _ _ _) as [w1 [r|e]]; [|eauto].
  rewrite bind_unfold. unfold lift, list_setitem. simpl. eauto.
Qed.

Lemma get_all_auc_scores_sequential_raises
      selected_features X y sample_weight cv_steps n_jobs forward
      random_state i w :
  (n_jobs ≤ 1)%Z → i < shape1 X → Some i ∉ selected_features →
  ∃ w' e, get_all_auc_scores selected_features X y sample_weight cv_steps
                             n_jobs forward random_state w = (w', Raise e).
Proof.
  intros Hjobs Hi Hsel. unfold get_all_auc_scores.
  rewrite bind_unfold.
  destruct (make_RandomState random_state w) as [w1 [rs|e]]; [|eauto].
  rewrite bind_unfold. unfold lift at 1.
  destruct (np_array_int selected_features) as [sel|e] eqn:Hnp; [|eauto].
  apply np_array_int_Ok in Hnp as ->.
  case_bool_decide; [unfold raise; eauto|].
  rewrite bind_unfold.
  destruct (call_split rs cv_steps X y w1) as [w2 [cv_indices|e]]; [|eauto].
  rewrite bind_unfold. unfold lift at 1.
  destruct (build_process_args _ _ _ _ _) as [pa|e]; [|eauto].
  rewrite bind_unfold. unfold lift at 1.
  destruct (build_test_sets _ _ _ _) as [test_sets|e] eqn:Hts; [|eauto].
  rewrite bool_decide_eq_false_2 by lia.
  apply score_sequentially_raises.
  apply build_test_sets_fst in Hts. intros ->. simpl in Hts.
  assert (i ∈ test_features_of X sel) as Hin.
  { apply elem_of_test_features. split; [done|].
    intros Hin. apply Hsel. by apply list_elem_of_fmap_2. }
  rewrite <- Hts in Hin. by apply elem_of_nil in Hin.
Qed.

(** ** What a call leaves untouched *)

Lemma keeps_draws_call_fit X_train y_train sw :
  keeps draws (call_fit X_train y_train sw).
Proof.
  apply keeps_bind; [auto with keeps|]. intros _ w. unfold action.
  by destruct (clf_fit _ _ _ _).
Qed.

Lemma keeps_draws_cv_loop cv_indices X y sample_weight last :
  keeps draws (cv_loop cv_indices X y sample_weight last).
Proof.
  revert last. induction cv_indices as [|[train_idx test_idx] rest IH];
    intros last; simpl; [auto with keeps|].
  apply keeps_bind; [auto with keeps|]. intros X_train.
  apply keeps_bind; [auto with keeps|]. intros X_test.
  apply keeps_bind; [auto with keeps|]. intros y_train.
  apply keeps_bind; [auto with keeps|]. intros sw.
  apply keeps_bind; [apply keeps_draws_call_fit|]. intros _.
  apply IH.
Qed.

Lemma keeps_draws_score_after_loop y last :
  keeps draws (score_after_loop y last).
Proof.
  destruct last as [[[test_idx X_test] swt]|]; simpl; [|auto with keeps].
  unfold call_predict_proba, call_roc_auc_score.
  apply keeps_bind.
  { apply keeps_bind; [auto with keeps|]. by intros _ w. }
  intros proba. apply keeps_bind; [auto with keeps|]. intros p1.
  apply keeps_bind; [auto with keeps|]. intros y_pred.
  apply keeps_bind; [auto with keeps|]. intros _. auto with keeps.
Qed.

(** Predicting and scoring leave the classifier object as it is. *)
Lemma keeps_clf_score_after_loop y last :
  keeps clf_obj (score_after_loop y last).
Proof.
  destruct last as [[[test_idx X_test] swt]|]; simpl; [|auto with keeps].
  unfold call_predict_proba, call_roc_auc_score.
  apply keeps_bind.
  { apply keeps_bind; [auto with keeps|]. by intros _ w. }
  intros proba. apply keeps_bind; [auto with keeps|]. intros p1.
  apply keeps_bind; [auto with keeps|]. intros y_pred.
  apply keeps_bind; [auto with keeps|]. intros _. auto with keeps.
Qed.

Lemma keeps_draws_single_auc_score feature_i cv_indices X y sample_weight :
  keeps draws (__single_auc_score__ feature_i cv_indices X y sample_weight).
Proof.
  unfold __single_auc_score__.
  apply keeps_bind; [apply keeps_draws_cv_loop|]. intros last.
  apply keeps_bind; [apply keeps_draws_score_after_loop|]. intros auc.
  auto with keeps.
Qed.

(** A submitted job works on a copy: the caller's object is untouched. *)
Lemma keeps_clf_submit (job : M (nat * float)) : keeps clf_obj (submit job).
Proof. intros w. unfold submit. by destruct (job w). Qed.

Lemma keeps_draws_submit (job : M (nat * float)) :
  keeps draws job → keeps draws (submit job).
Proof.
  intros Hjob w. unfold submit. specialize (Hjob w). by destruct (job w).
Qed.

Lemma keeps_clf_submit_all cv_indices X y sample_weight test_sets :
  keeps clf_obj (submit_all cv_indices X y sample_weight test_sets).
Proof.
  induction test_sets as [|[feature_i test_set] rest IH]; simpl;
    [auto with keeps|].
  apply keeps_bind; [auto with keeps|]. intros X_i.
  apply keeps_bind; [apply keeps_clf_submit|]. intros future.
  apply keeps_bind; [apply IH|]. intros futures. auto with keeps.
Qed.

Lemma keeps_draws_submit_all cv_indices X y sample_weight test_sets :
  keeps draws (submit_all cv_indices X y sample_weight test_sets).
Proof.
  induction test_sets as [|[feature_i test_set] rest IH]; simpl;
    [auto with keeps|].
  apply keeps_bind; [auto with keeps|]. intros X_i.
  apply keeps_bind;
    [apply keeps_draws_submit, keeps_draws_single_auc_score|].
  intros future.
  apply keeps_bind; [apply IH|]. intros futures. auto with keeps.
Qed.

Lemma keeps_draws_score_sequentially cv_indices X y sample_weight
      test_sets auc_scores :
  keeps draws (score_sequentially cv_indices X y sample_weight test_sets
                                  auc_scores).
Proof.
  revert auc_scores.
  induction test_sets as [|[feature_i test_set] rest IH]; intros auc_scores;
    simpl; [auto with keeps|].
  apply keeps_bind; [auto with keeps|]. intros X_i.
  apply keeps_bind; [apply keeps_draws_single_auc_score|]. intros r.
  apply keeps_bind; [auto with keeps|]. intros a. apply IH.
Qed.

Lemma keeps_clf_make_RandomState random_state :
  keeps (C:=C) clf_obj (make_RandomState random_state).
Proof.
  destruct random_state as [|seed|r]; simpl; [by intros w| |auto with keeps].
  case_bool_decide; auto with keeps.
Qed.

Lemma keeps_clf_call_split rs n_splits X y :
  keeps (C:=C) clf_obj (call_split rs n_splits X y).
Proof.
  unfold call_split. apply keeps_bind; [auto with keeps|]. intros _.
  auto with keeps.
Qed.

Lemma keeps_draws_call_split rs n_splits X y :
  keeps (C:=C) draws (call_split rs n_splits X y).
Proof.
  unfold call_split. apply keeps_bind; [auto with keeps|]. intros _.
  auto with keeps.
Qed.

(** With a process pool the stage never touches the caller's classifier
    object, whatever its outcome. *)
Lemma keeps_clf_get_all_auc_scores_parallel
      selected_features X y sample_weight cv_steps n_jobs forward
      random_state :
  (1 < n_jobs)%Z →
  keeps clf_obj (get_all_auc_scores selected_features X y sample_weight
                                    cv_steps n_jobs forward random_state).
Proof.
  intros Hjobs. unfold get_all_auc_scores.
  apply keeps_bind; [apply keeps_clf_make_RandomState|]. intros rs.
  apply keeps_bind; [auto with keeps|]. intros sel.
  case_bool_decide; [auto with keeps|].
  apply keeps_bind; [apply keeps_clf_call_split|]. intros cv_indices.
  apply keeps_bind; [auto with keeps|]. intros _.
  apply keeps_bind; [auto with keeps|]. intros test_sets.
  rewrite bool_decide_eq_true_2 by done.
  apply keeps_bind; [apply keeps_clf_submit_all|]. intros futures.
  auto with keeps.
Qed.

Lemma fresh_RandomState_then_draws {A} (k : R → M A) w :
  (∀ rs, keeps draws (k rs)) →
  draws (fst ((fresh_RandomState ≫= k) w)) = S (draws w).
Proof.
  intros Hk. rewrite bind_unfold. unfold fresh_RandomState.
  by rewrite Hk.
Qed.

(** Called without a [random_state], the stage draws exactly one generator
    from the operating system, whatever its outcome. *)
Lemma get_all_auc_scores_draws
      selected_features X y sample_weight cv_steps n_jobs forward w :
  draws (fst (get_all_auc_scores selected_features X y sample_weight
                                 cv_steps n_jobs forward RsNone w))
  = S (draws w).
Proof.
  unfold get_all_auc_scores, make_RandomState.
  apply fresh_RandomState_then_draws. intros rs.
  apply keeps_bind; [auto with keeps|]. intros sel.
  case_bool_decide; [auto with keeps|].
  apply keeps_bind; [apply keeps_draws_call_split|]. intros cv_indices.
  apply keeps_bind; [auto with keeps|]. intros _.
  apply keeps_bind; [auto with keeps|]. intros test_sets.
  case_bool_decide.
  - apply keeps_bind; [apply keeps_draws_submit_all|]. intros futures.
    auto with keeps.
  - apply keeps_draws_score_sequentially.
Qed.

(** ** The single-candidate scorer *)

Lemma put_items_length {A} (idx : list nat) : ∀ (a vals : list A),
  length (put_items a idx vals) = length a.
Proof.
  induction idx as [|i idx IH]; intros a [|v vals]; simpl; try done.
  by rewrite IH, length_insert.
Qed.

Lemma put_items_lookup_other {A} (idx : list nat) i : ∀ (a vals : list A),
  i ∉ idx → put_items a idx vals !! i = a !! i.
Proof.
  induction idx as [|j idx IH]; intros a [|v vals] Hi; simpl; try done.
  apply not_elem_of_cons in Hi as [Hne Hi].
  rewrite IH by done. by apply list_lookup_insert_ne.
Qed.

Lemma np_setitem_Ok {A} (a : list A) idx vals a' :
  np_setitem a idx vals = Ok a' →
  length a' = length a ∧ ∀ i, i ∉ idx → a' !! i = a !! i.
Proof.
  unfold np_setitem. destruct (negb _); [done|].
  case_bool_decide.
  - intros [= <-]. split; [apply put_items_length|].
    intros i Hi. by apply put_items_lookup_other.
  - destruct vals as [|v [|v' vals]]; try done.
    intros [= <-]. split; [apply put_items_length|].
    intros i Hi. by apply put_items_lookup_other.
Qed.

(** After the loop over the folds, the loop variables are those of the last
    fold of the plan. *)
Lemma cv_loop_last front train_last test_last X y sample_weight :
  ∀ last0 w w' last,
    cv_loop (front ++ [(train_last, test_last)]) X y sample_weight last0 w
    = (w', Ok last) →
    ∃ X_test sample_weight_test,
      last = Some (test_last, X_test, sample_weight_test)
      ∧ take_rows X test_last = Ok X_test.
Proof.
  induction front as [|[train_idx test_idx] front IH];
    intros last0 w w' last Hrun; simpl in Hrun.
  - bind_inv Hrun.
    apply lift_Ok_inv in Hstep0 as [-> HX_test].
    injection Hrun as <- <-. eauto.
  - bind_inv Hrun. eauto.
Qed.

Lemma cv_loop_nonempty cv_indices X y sample_weight :
  ∀ last0 w w' last,
    cv_loop cv_indices X y sample_weight last0 w = (w', Ok last) →
    (cv_indices = [] ∧ last = last0)
    ∨ ∃ test_idx X_test sample_weight_test,
        last = Some (test_idx, X_test, sample_weight_test).
Proof.
  induction cv_indices as [|[train_idx test_idx] rest IH];
    intros last0 w w' last Hrun; simpl in Hrun.
  - injection Hrun as <- <-. by left.
  - bind_inv Hrun. right.
    apply IH in Hrun as [[_ ->]|Hlast]; eauto.
Qed.

(** The statements after the loop: the vector handed to [roc_auc_score] is
    zero wherever [test_idx] does not point. *)
Lemma score_after_loop_Ok y test_idx X_test sample_weight_test w w' auc :
  score_after_loop y (Some (test_idx, X_test, sample_weight_test)) w
  = (w', Ok auc) →
  ∃ y_pred,
    roc_auc_score y y_pred sample_weight_test = Ok auc
    ∧ last (log w') = Some (EvAuc y y_pred sample_weight_test)
    ∧ length y_pred = length y
    ∧ ∀ i, i ∉ test_idx → i < length y → y_pred !! i = Some 0%Qc.
Proof.
  intros Hrun. simpl in Hrun. bind_inv Hrun.
  apply lift_Ok_inv in Hstep0 as [-> _].
  apply lift_Ok_inv in Hstep1 as [-> Hset].
  apply np_setitem_Ok in Hset as [Hlen Hother].
  unfold call_roc_auc_score in Hrun. bind_inv Hrun.
  apply lift_Ok_inv in Hrun as [-> Hauc].
  injection Hstep0 as <- _.
  exists a1. split; [done|]. split; [simpl; by rewrite last_snoc|].
  rewrite length_replicate in Hlen. split; [done|].
  intros i Hi Hlt. rewrite Hother by done. by apply lookup_replicate_2.
Qed.

Lemma single_auc_score_Ok feature_i cv_indices X y sample_weight w w' r :
  __single_auc_score__ feature_i cv_indices X y sample_weight w
  = (w', Ok r) →
  fst r = feature_i
  ∧ ∃ y_pred sample_weight_test,
      roc_auc_score y y_pred sample_weight_test = Ok (snd r).
Proof.
  intros Hrun. unfold __single_auc_score__ in Hrun. bind_inv Hrun.
  injection Hrun as <- <-. split; [done|].
  apply cv_loop_nonempty in Hstep as [[_ ->]|(te & Xt & swt & ->)];
    [done|].
  apply score_after_loop_Ok in Hstep0 as (y_pred & Hauc & _). eauto.
Qed.

(** ** The branch for [n_jobs > 1] *)

Lemma submit_all_Ok cv_indices X y sample_weight test_sets :
  ∀ w w' futures,
    submit_all cv_indices X y sample_weight test_sets w = (w', Ok futures) →
    Forall2 (fun t future => ∀ r, future = Ok r → scored y (fst t) r)
            test_sets futures.
Proof.
  induction test_sets as [|[feature_i test_set] rest IH];
    intros w w' futures Hrun; simpl in Hrun.
  - injection Hrun as <- <-. constructor.
  - bind_inv Hrun. injection Hrun as <- <-.
    constructor; [|by eapply IH].
    intros r ->. unfold submit in Hstep0.
    destruct (__single_auc_score__ _ _ _ _ _ _) as [w3 r3] eqn:Hjob.
    injection Hstep0 as _ ->.
    by apply single_auc_score_Ok in Hjob.
Qed.

Lemma collect_Ok done : ∀ init scores,
  collect done init = Ok scores →
  ∃ pairs,
    done = Ok <$> pairs
    ∧ length scores = length init
    ∧ (∀ i, i ∉ pairs.*1 → scores !! i = init !! i)
    ∧ (NoDup pairs.*1 → ∀ p, p ∈ pairs → scores !! (fst p) = Some (snd p)).
Proof.
  induction done as [|future rest IH]; intros init scores Hc; simpl in Hc.
  - injection Hc as <-. exists []. repeat split; try done.
    intros _ p Hp. by apply elem_of_nil in Hp.
  - apply result_bind_Ok_inv in Hc as ([f auc] & -> & Hc).
    apply result_bind_Ok_inv in Hc as (init' & Hset & Hc).
    unfold np_set1 in Hset. case_bool_decide as Hf; [|done].
    injection Hset as <-.
    apply IH in Hc as (pairs & -> & Hlen & Hother & Hwritten).
    exists ((f, auc) :: pairs). rewrite length_insert in Hlen.
    split; [done|]. split; [done|]. split.
    + intros i [Hne Hi]%not_elem_of_cons. simpl in Hne.
      rewrite Hother by done. by apply list_lookup_insert_ne.
    + intros [Hf' Hnd]%NoDup_cons p [->|Hp]%elem_of_cons; [|by eauto].
      simpl. rewrite Hother by done. by apply list_lookup_insert_eq.
Qed.

Lemma Forall2_scored_fst y (ts : list (nat * index_array)) fs :
  Forall2 (fun t r => scored y (fst t) r) ts fs → fs.*1 = ts.*1.
Proof.
  induction 1 as [|t r ts fs [Hfst _] _ IH]; [done|].
  rewrite !fmap_cons. by f_equal.
Qed.

(** The score array of a step evaluated by the process pool: as long as
    the feature count, not-a-number at the indices already selected, and at
    every other index a value that [roc_auc_score] returned. *)
Lemma get_all_auc_scores_parallel_Ok
      selected_features X y sample_weight cv_steps n_jobs forward
      random_state w w' scores :
  (1 < n_jobs)%Z →
  get_all_auc_scores selected_features X y sample_weight cv_steps n_jobs
                     forward random_state w = (w', Ok scores) →
  ∃ sel,
    selected_features = Some <$> sel
    ∧ length scores = shape1 X
    ∧ (∀ i, i < shape1 X → i ∈ sel → scores !! i = Some NaN)
    ∧ (∀ i, i < shape1 X → i ∉ sel →
            ∃ auc y_pred sample_weight_test,
              scores !! i = Some auc
              ∧ roc_auc_score y y_pred sample_weight_test = Ok auc).
Proof.
  intros Hjobs Hrun. unfold get_all_auc_scores in Hrun.
  apply bind_Ok_inv in Hrun as (w1 & rs & _ & Hrun).
  apply bind_Ok_inv in Hrun as (w2 & sel & Hsel & Hrun).
  apply lift_Ok_inv in Hsel as [-> Hsel].
  apply np_array_int_Ok in Hsel as ->.
  case_bool_decide; [done|].
  apply bind_Ok_inv in Hrun as (w3 & cv_indices & _ & Hrun).
  apply bind_Ok_inv in Hrun as (w4 & pa & _ & Hrun).
  apply bind_Ok_inv in Hrun as (w5 & test_sets & Hts & Hrun).
  apply lift_Ok_inv in Hts as [-> Hts].
  apply build_test_sets_fst in Hts.
  rewrite bool_decide_eq_true_2 in Hrun by done.
  apply bind_Ok_inv in Hrun as (w6 & futures & Hsub & Hrun).
  apply lift_Ok_inv in Hrun as [-> Hcol].
  apply submit_all_Ok in Hsub.
  apply collect_Ok in Hcol as (pairs & Hdone & Hlen & Hother & Hwritten).
  rewrite length_replicate in Hlen.
  (* the futures iterated are the futures submitted, in some order *)
  pose proof (done_order_perm _ futures) as Hperm. rewrite Hdone in Hperm.
  change (Ok <$> pairs) with (map (@Ok (nat * float)) pairs) in Hperm.
  symmetry in Hperm.
  apply Permutation_map_inv in Hperm as (fs & -> & Hperm).
  change (map Ok fs) with (@Ok (nat * float) <$> fs) in Hsub.
  apply Forall2_fmap_r in Hsub.
  assert (Forall2 (fun t r => scored y (fst t) r) test_sets fs) as Hscored.
  { eapply Forall2_impl; [exact Hsub|]. simpl. intros t r Hr. by apply Hr. }
  assert (pairs.*1 ≡ₚ test_features_of X sel) as Hidx.
  { rewrite Hperm, (Forall2_scored_fst _ _ _ Hscored). by rewrite Hts. }
  exists sel. split; [done|]. split; [done|]. split.
  - intros i Hi Hin. rewrite Hother.
    + by apply lookup_replicate_2.
    + rewrite Hidx, elem_of_test_features. tauto.
  - intros i Hi Hin.
    assert (i ∈ pairs.*1) as Hip
        by (rewrite Hidx, elem_of_test_features; done).
    apply list_elem_of_fmap in Hip as ([f auc] & -> & Hp).
    assert ((f, auc) ∈ fs) as Hfs by (by rewrite <- Hperm).
    apply list_elem_of_lookup in Hfs as [k Hk].
    destruct (Forall2_lookup_r _ _ _ _ _ Hscored Hk)
      as (t & _ & _ & y_pred & swt & Hauc).
    exists auc, y_pred, swt. split; [|done].
    apply (Hwritten (ltac:(rewrite Hidx; apply NoDup_test_features))
                    (f, auc) Hp).
Qed.

End StageFacts.

(* ===================================================================== *)
(** * The search loop *)
(* ===================================================================== *)

Section SearchFacts.

Context {C : Type} `{Classifier C} {R : Type} `{Environment R}.

#[local] Abbreviation M := (M C).

Lemma get_all_auc_scores_sequential_Ok
      selected_features X y sample_weight cv_steps n_jobs forward
      random_state w w' scores :
  (n_jobs ≤ 1)%Z →
  get_all_auc_scores selected_features X y sample_weight cv_steps n_jobs
                     forward random_state w = (w', Ok scores) →
  scores = [] ∧ ∃ sel, selected_features = Some <$> sel.
Proof.
  intros Hjobs Hrun. unfold get_all_auc_scores in Hrun.
  apply bind_Ok_inv in Hrun as (w1 & rs & _ & Hrun).
  apply bind_Ok_inv in Hrun as (w2 & sel & Hsel & Hrun).
  apply lift_Ok_inv in Hsel as [-> Hsel].
  apply np_array_int_Ok in Hsel as ->.
  case_bool_decide; [done|].
  apply bind_Ok_inv in Hrun as (w3 & cv_indices & _ & Hrun).
  apply bind_Ok_inv in Hrun as (w4 & pa & _ & Hrun).
  apply bind_Ok_inv in Hrun as (w5 & test_sets & _ & Hrun).
  rewrite bool_decide_eq_false_2 in Hrun by lia.
  split; [|by eauto].
  destruct test_sets as [|t rest].
  - simpl in Hrun. by injection Hrun as _ <-.
  - destruct (score_sequentially_raises cv_indices X y sample_weight
                (t :: rest) w5 ltac:(done)) as (w6 & e & Hr).
    congruence.
Qed.

(** Whatever the branch, a finite entry of a step's score array sits at a
    feature index that is not selected yet. *)
Lemma get_all_auc_scores_finite
      selected_features X y sample_weight cv_steps n_jobs forward
      random_state w w' scores :
  get_all_auc_scores selected_features X y sample_weight cv_steps n_jobs
                     forward random_state w = (w', Ok scores) →
  (None ∉ selected_features)
  ∧ ∀ i a, scores !! i = Some (Finite a) →
           i < shape1 X ∧ Some i ∉ selected_features.
Proof.
  intros Hrun. destruct (decide (1 < n_jobs)%Z) as [Hjobs|Hjobs].
  - apply get_all_auc_scores_parallel_Ok in Hrun
      as (sel & -> & Hlen & Hnan & _); [|done].
    split; [by intros (? & ? & _)%list_elem_of_fmap|].
    intros i a Hi.
    assert (i < shape1 X) as Hlt
        by (rewrite <- Hlen; by eapply lookup_lt_Some).
    split; [done|].
    intros (j & [= <-] & Hin)%list_elem_of_fmap.
    rewrite (Hnan i Hlt Hin) in Hi. done.
  - apply get_all_auc_scores_sequential_Ok in Hrun as [-> [sel ->]];
      [|lia].
    split; [by intros (? & ? & _)%list_elem_of_fmap|].
    intros i a Hi. done.
Qed.

Lemma loop_body_Ok X y sample_weight cv_steps n_jobs forward
      matching_features sel m w w' sel' m' :
  loop_body X y sample_weight cv_steps n_jobs forward matching_features
            sel m w = (w', Ok (sel', m')) →
  ∃ scores,
    get_all_auc_scores sel X y sample_weight cv_steps n_jobs forward RsNone w
    = (w', Ok scores)
    ∧ sel' = sel ++ [select_best matching_features forward scores]
    ∧ set_column m (length sel) scores = Ok m'.
Proof.
  intros Hrun. unfold loop_body in Hrun.
  apply bind_Ok_inv in Hrun as (w1 & scores & Hstage & Hrun).
  apply bind_Ok_inv in Hrun as (w2 & m2 & Hset & Hrun).
  apply lift_Ok_inv in Hset as [-> Hset].
  injection Hrun as <- <- <-. eauto.
Qed.

(** One completed pass appends exactly one entry, which is new. *)
Lemma loop_body_appends_new X y sample_weight cv_steps n_jobs forward
      matching_features sel m w w' sel' m' :
  loop_body X y sample_weight cv_steps n_jobs forward matching_features
            sel m w = (w', Ok (sel', m')) →
  ∃ index_best,
    sel' = sel ++ [index_best]
    ∧ (index_best ∉ sel)
    ∧ ∀ i, index_best = Some i → i < shape1 X.
Proof.
  intros (scores & Hstage & -> & _)%loop_body_Ok.
  apply get_all_auc_scores_finite in Hstage as [Hnone Hfin].
  exists (select_best matching_features forward scores).
  split; [done|].
  destruct (select_best matching_features forward scores) as [ib|] eqn:Hs.
  - apply select_best_Some in Hs as (vb & Hvb & _).
    destruct (Hfin ib vb Hvb) as [Hlt Hnot].
    split; [done|]. by intros i [= <-].
  - split; [done|]. by intros i.
Qed.

Lemma search_loop_length fuel X y sample_weight n_features cv_steps n_jobs
      forward matching_features :
  ∀ sel m w w' sel' m',
    search_loop fuel X y sample_weight n_features cv_steps n_jobs forward
                matching_features sel m w = Some (w', Ok (sel', m')) →
    Z.of_nat (length sel') = n_features.
Proof.
  induction fuel as [|fuel IH]; intros sel m w w' sel' m' Hrun;
    simpl in Hrun; case_bool_decide as Hguard.
  - done.
  - injection Hrun as <- <- <-. lia.
  - destruct (loop_body _ _ _ _ _ _ _ _ _ _) as [w1 [[sel1 m1]|e]];
      [by eapply IH|done].
  - injection Hrun as <- <- <-. lia.
Qed.

(** The run ends in a state the loop reaches. *)
Lemma search_loop_reaches fuel X y sample_weight n_features cv_steps n_jobs
      forward matching_features m0 w0 :
  ∀ k sel m w w' sel' m',
    loop_reaches X y sample_weight n_features cv_steps n_jobs forward
                 matching_features m0 w0 k sel m w →
    search_loop fuel X y sample_weight n_features cv_steps n_jobs forward
                matching_features sel m w = Some (w', Ok (sel', m')) →
    ∃ k', loop_reaches X y sample_weight n_features cv_steps n_jobs forward
                       matching_features m0 w0 k' sel' m' w'.
Proof.
  induction fuel as [|fuel IH]; intros k sel m w w' sel' m' Hreach Hrun;
    simpl in Hrun; case_bool_decide as Hguard.
  - done.
  - injection Hrun as <- <- <-. eauto.
  - destruct (loop_body _ _ _ _ _ _ _ _ _ _) as [w1 [[sel1 m1]|e]] eqn:Hb;
      [|done].
    eapply IH; [|exact Hrun]. by eapply reaches_step.
  - injection Hrun as <- <- <-. eauto.
Qed.

Lemma loop_reaches_invariant X y sample_weight n_features cv_steps n_jobs
      forward matching_features m0 w0 k sel m w :
  (0 ≤ n_features)%Z →
  loop_reaches X y sample_weight n_features cv_steps n_jobs forward
               matching_features m0 w0 k sel m w →
  length sel = k
  ∧ NoDup sel
  ∧ (Z.of_nat (length sel) ≤ n_features)%Z
  ∧ ∀ i, Some i ∈ sel → i < shape1 X.
Proof.
  intros Hn. induction 1 as [|k sel m w sel' m' w' _ IH Hguard Hbody].
  - repeat split; [constructor|simpl; lia|].
    intros i Hi. by apply elem_of_nil in Hi.
  - destruct IH as (Hlen & Hnd & Hle & Hidx).
    apply loop_body_appends_new in Hbody as (ib & -> & Hnew & Hlt).
    rewrite length_app. simpl. repeat split.
    + lia.
    + apply NoDup_app. repeat split; [done| |apply NoDup_singleton].
      intros x Hx Hx'%list_elem_of_singleton. by subst.
    + lia.
    + intros i [Hi|Hi%list_elem_of_singleton]%elem_of_app; eauto.
Qed.

(** Enough fuel: the loop stops, by returning or by raising, within
    [n_features - len(selected_features)] passes. *)
Lemma search_loop_terminates fuel X y sample_weight n_features cv_steps
      n_jobs forward matching_features :
  ∀ sel m w,
    (Z.of_nat (length sel) ≤ n_features)%Z →
    (n_features - Z.of_nat (length sel) ≤ Z.of_nat fuel)%Z →
    is_Some (search_loop fuel X y sample_weight n_features cv_steps n_jobs
                         forward matching_features sel m w).
Proof.
  induction fuel as [|fuel IH]; intros sel m w Hle Hfuel; simpl;
    case_bool_decide as Hguard; try done; try lia.
  destruct (loop_body _ _ _ _ _ _ _ _ _ _) as [w1 [[sel1 m1]|e]] eqn:Hb;
    [|done].
  apply loop_body_appends_new in Hb as (ib & -> & _).
  apply IH; rewrite length_app; simpl; lia.
Qed.

Lemma np_zeros_Ok rows cols m :
  np_zeros rows cols = Ok m → (0 ≤ cols)%Z.
Proof. unfold np_zeros. destruct (Z.ltb_spec cols 0); [done|lia]. Qed.

Lemma recursive_feature_selection_roc_auc_terminates fuel X y sample_weight
      n_features cv_steps n_jobs forward matching_features w :
  (clamp_n_features X n_features ≤ Z.of_nat fuel)%Z →
  is_Some (recursive_feature_selection_roc_auc
             fuel X y sample_weight n_features cv_steps n_jobs forward
             matching_features w).
Proof.
  intros Hfuel. unfold recursive_feature_selection_roc_auc.
  destruct (negb _); [done|].
  destruct (np_zeros _ _) as [m0|e] eqn:Hz; [|done].
  apply np_zeros_Ok in Hz.
  apply search_loop_terminates; simpl; lia.
Qed.

(** With a process pool, a pass through the loop body leaves the caller's
    classifier object as it was. *)
Lemma keeps_clf_loop_body X y sample_weight cv_steps n_jobs forward
      matching_features sel m :
  (1 < n_jobs)%Z →
  keeps clf_obj (loop_body X y sample_weight cv_steps n_jobs forward
                           matching_features sel m).
Proof.
  intros Hjobs. unfold loop_body.
  apply keeps_bind; [by apply keeps_clf_get_all_auc_scores_parallel|].
  intros scores. apply keeps_bind; [auto with keeps|]. intros m'.
  auto with keeps.
Qed.

Lemma search_loop_keeps_clf fuel X y sample_weight n_features cv_steps
      n_jobs forward matching_features :
  (1 < n_jobs)%Z →
  ∀ sel m w w' r,
    search_loop fuel X y sample_weight n_features cv_steps n_jobs forward
                matching_features sel m w = Some (w', r) →
    clf_obj w' = clf_obj w.
Proof.
  intros Hjobs.
  induction fuel as [|fuel IH]; intros sel m w w' r Hrun; simpl in Hrun;
    case_bool_decide as Hguard; try done;
    try (by injection Hrun as <- _).
  pose proof (keeps_clf_loop_body X y sample_weight cv_steps n_jobs forward
                matching_features sel m Hjobs w) as Hkeep.
  destruct (loop_body _ _ _ _ _ _ _ _ _ _) as [w1 [[sel1 m1]|e]];
    simpl in Hkeep.
  - rewrite <- Hkeep. by eapply IH.
  - by injection Hrun as <- _.
Qed.

(** Every pass through the loop body draws one generator from the OS. *)
Lemma loop_body_draws X y sample_weight cv_steps n_jobs forward
      matching_features sel m w :
  draws (fst (loop_body X y sample_weight cv_steps n_jobs forward
                        matching_features sel m w)) = S (draws w).
Proof.
  unfold loop_body. rewrite bind_unfold.
  pose proof (get_all_auc_scores_draws sel X y sample_weight cv_steps
                n_jobs forward w) as Hd.
  destruct (get_all_auc_scores _ _ _ _ _ _ _ _ _) as [w1 [scores|e]];
    simpl in Hd; [|done].
  rewrite bind_unfold. unfold lift.
  by destruct (set_column _ _ _).
Qed.

Lemma search_loop_draws fuel X y sample_weight n_features cv_steps n_jobs
      forward matching_features :
  ∀ sel m w w' sel' m',
    search_loop fuel X y sample_weight n_features cv_steps n_jobs forward
                matching_features sel m w = Some (w', Ok (sel', m')) →
    draws w' + length sel = draws w + length sel'.
Proof.
  induction fuel as [|fuel IH]; intros sel m w w' sel' m' Hrun;
    simpl in Hrun; case_bool_decide as Hguard; try done;
    try (by injection Hrun as <- <- <-).
  pose proof (loop_body_draws X y sample_weight cv_steps n_jobs forward
                matching_features sel m w) as Hd.
  destruct (loop_body _ _ _ _ _ _ _ _ _ _) as [w1 [[sel1 m1]|e]] eqn:Hb;
    [|done].
  simpl in Hd. apply IH in Hrun.
  apply loop_body_appends_new in Hb as (ib & -> & _).
  rewrite length_app in Hrun. simpl in Hrun. lia.
Qed.

(** The search never passes a seed on: a run that returns has drawn one
    fresh generator from the operating system per feature selected. *)
Lemma recursive_feature_selection_roc_auc_draws fuel X y sample_weight
      n_features cv_steps n_jobs forward matching_features w w' sel m :
  recursive_feature_selection_roc_auc
    fuel X y sample_weight n_features cv_steps n_jobs forward
    matching_features w = Some (w', Ok (sel, m)) →
  draws w' = draws w + length sel.
Proof.
  unfold recursive_feature_selection_roc_auc.
  destruct (negb _); [done|].
  destruct (np_zeros _ _) as [m0|e]; [|done].
  intros Hrun%search_loop_draws. simpl in Hrun.
  case_bool_decide; simpl in Hrun; lia.
Qed.

(** With [n_jobs <= 1] a search that has a feature to select raises in its
    first pass through the loop body. *)
Lemma search_sequential_raises fuel X y sample_weight n_features cv_steps
      n_jobs forward matching_features w :
  (n_jobs ≤ 1)%Z → (0 < clamp_n_features X n_features)%Z →
  ∃ w' e,
    recursive_feature_selection_roc_auc
      (S fuel) X y sample_weight n_features cv_steps n_jobs forward
      matching_features w = Some (w', Raise e).
Proof.
  intros Hjobs Hn. unfold recursive_feature_selection_roc_auc.
  destruct (negb _); [by eauto|].
  set (w1 := if bool_decide _ then _ else _). clearbody w1.
  assert (0 < shape1 X) as Hfeat.
  { unfold clamp_n_features in Hn. case_bool_decide; lia. }
  destruct (np_zeros _ _) as [m0|e]; [|by eauto].
  simpl. rewrite bool_decide_eq_true_2 by (simpl; lia).
  unfold loop_body. rewrite bind_unfold.
  destruct (get_all_auc_scores_sequential_raises
              [] X y sample_weight cv_steps n_jobs forward RsNone 0 w1)
    as (w2 & e & ->); [done|done|apply not_elem_of_nil|].
  eauto.
Qed.

(** Fewer selected features than features: one is left to be scored. *)
Lemma exists_unselected (sel : list nat) total :
  length sel < total → ∃ i, i < total ∧ i ∉ sel.
Proof.
  intros Hlen.
  destruct (list_find (fun i => i ∉ sel) (seq 0 total)) as [[k i]|] eqn:Hf.
  - apply list_find_Some in Hf as (Hk & Hi & _).
    exists i. split; [|done].
    apply list_elem_of_lookup_2, elem_of_seq in Hk. lia.
  - apply list_find_None in Hf.
    assert (seq 0 total ⊆+ sel) as Hsub.
    { apply NoDup_submseteq; [apply NoDup_seq|].
      intros x Hx. rewrite Forall_forall in Hf.
      by apply dec_stable, Hf. }
    apply submseteq_length in Hsub. rewrite length_seq in Hsub. lia.
Qed.

Lemma clamp_n_features_le X n_features :
  (clamp_n_features X n_features ≤ Z.of_nat (shape1 X))%Z.
Proof. unfold clamp_n_features. case_bool_decide; lia. Qed.

(** When the metric only returns finite values, a completed pass with a
    feature left appends the index of a feature. *)
Lemma loop_body_selects_feature X y sample_weight cv_steps n_jobs forward
      matching_features sel m w w' sel' m' :
  (∀ y_true y_score sw a,
      roc_auc_score y_true y_score sw = Ok a → isfinite a = true) →
  length sel < shape1 X →
  loop_body X y sample_weight cv_steps n_jobs forward matching_features
            sel m w = (w', Ok (sel', m')) →
  ∃ index_best, sel' = sel ++ [Some index_best] ∧ index_best < shape1 X.
Proof.
  intros Hfinite Hlen Hbody.
  destruct (loop_body_appends_new _ _ _ _ _ _ _ _ _ _ _ _ _ Hbody)
    as (ib & Hsel' & _ & Hlt).
  apply loop_body_Ok in Hbody as (scores & Hstage & -> & _).
  apply app_inv_head in Hsel' as [= <-].
  destruct (select_best matching_features forward scores) as [i|] eqn:Hs;
    [by eauto|].
  exfalso.
  destruct (decide (1 < n_jobs)%Z) as [Hjobs|Hjobs].
  - apply get_all_auc_scores_parallel_Ok in Hstage
      as (sel_nat & -> & _ & _ & Hauc); [|done].
    rewrite length_fmap in Hlen.
    destruct (exists_unselected sel_nat (shape1 X) Hlen) as (i & Hi & Hnot).
    destruct (Hauc i Hi Hnot) as (auc & y_pred & swt & Hlook & Hroc).
    apply Hfinite in Hroc. destruct auc as [a| |neg]; try done.
    by eapply select_best_None.
  - pose proof Hstage as Hseq.
    apply get_all_auc_scores_sequential_Ok in Hseq as [_ [sel_nat ->]];
      [|lia].
    rewrite length_fmap in Hlen.
    destruct (exists_unselected sel_nat (shape1 X) Hlen) as (i & Hi & Hnot).
    destruct (get_all_auc_scores_sequential_raises
                (Some <$> sel_nat) X y sample_weight cv_steps n_jobs forward
                RsNone i w) as (w2 & e & Hraise); [lia|done| |congruence].
    intros (j & [= <-] & Hin)%list_elem_of_fmap. done.
Qed.

Lemma loop_reaches_feature_indices X y sample_weight n_features cv_steps
      n_jobs forward matching_features m0 w0 k sel m w :
  (∀ y_true y_score sw a,
      roc_auc_score y_true y_score sw = Ok a → isfinite a = true) →
  (0 ≤ n_features ≤ Z.of_nat (shape1 X))%Z →
  loop_reaches X y sample_weight n_features cv_steps n_jobs forward
               matching_features m0 w0 k sel m w →
  ∀ o, o ∈ sel → ∃ i, o = Some i ∧ i < shape1 X.
Proof.
  intros Hfinite Hn Hreach.
  induction Hreach as [|k sel m w sel' m' w' Hreach IH Hguard Hbody].
  - intros o Ho. by apply elem_of_nil in Ho.
  - destruct (loop_reaches_invariant _ _ _ _ _ _ _ _ _ _ _ _ _ _
                (proj1 Hn) Hreach) as (_ & _ & Hle & _).
    apply loop_body_selects_feature in Hbody as (ib & -> & Hlt);
      [|done|lia].
    intros o [Ho|Ho%list_elem_of_singleton]%elem_of_app; [by apply IH|].
    eauto.
Qed.

(** What a search that returns hands back: as many entries as the clamped
    request asks for, no entry twice, no index outside the matrix. *)
Lemma recursive_feature_selection_roc_auc_Ok fuel X y sample_weight
      n_features cv_steps n_jobs forward matching_features w w' sel m :
  recursive_feature_selection_roc_auc
    fuel X y sample_weight n_features cv_steps n_jobs forward
    matching_features w = Some (w', Ok (sel, m)) →
  Z.of_nat (length sel) = clamp_n_features X n_features
  ∧ NoDup sel
  ∧ ∀ i, Some i ∈ sel → i < shape1 X.
Proof.
  unfold recursive_feature_selection_roc_auc.
  destruct (negb _); [done|].
  destruct (np_zeros _ _) as [m0|e] eqn:Hz; [|done].
  apply np_zeros_Ok in Hz. intros Hrun.
  split; [by eapply search_loop_length|].
  eapply search_loop_reaches in Hrun as [k Hreach]; [|apply reaches_start].
  apply loop_reaches_invariant in Hreach; [|done]. tauto.
Qed.

End SearchFacts.

(* ===================================================================== *)
(** * The claims *)
(* ===================================================================== *)

Section Claims.

Context {C : Type} `{Classifier C} {R : Type} `{Environment R}.

(** C1.  The scorer does not accumulate the folds' predictions.  Whenever
    [__single_auc_score__] returns, the prediction vector it handed to
    [roc_auc_score] (the last call in the log) has the length of [y] and is
    zero at every row outside the test rows of the LAST fold of the plan:
    the test rows of all earlier folds carry no prediction.  The weights
    passed along are those of the last fold's test rows. *)
Theorem single_auc_score_scores_last_fold_only
        feature_i front train_last test_last X y sample_weight
        (w w' : World C) r :
  __single_auc_score__ feature_i (front ++ [(train_last, test_last)])
                       X y sample_weight w = (w', Ok r) →
  ∃ y_pred sample_weight_test,
    roc_auc_score y y_pred sample_weight_test = Ok (snd r)
    ∧ last (log w') = Some (EvAuc y y_pred sample_weight_test)
    ∧ length y_pred = length y
    ∧ ∀ i, i ∉ test_last → i < length y → y_pred !! i = Some 0%Qc.
Proof.
  intros Hrun. unfold __single_auc_score__ in Hrun. bind_inv Hrun.
  injection Hrun as <- <-.
  apply cv_loop_last in Hstep as (X_test & swt & -> & _).
  apply score_after_loop_Ok in Hstep0 as (y_pred & Hauc & Hlog & Hlen & Hz).
  exists y_pred, swt. eauto.
Qed.

(** C2.  With [n_jobs <= 1] the evaluation stage never returns a score
    array of the feature count: whatever it returns is the empty list, and
    with at least one feature not selected yet it returns nothing at all,
    it raises. *)
Theorem get_all_auc_scores_sequential_returns_no_array
        selected_features X y sample_weight cv_steps n_jobs forward
        random_state i (w : World C) :
  (n_jobs ≤ 1)%Z →
  (∀ w' scores,
      get_all_auc_scores selected_features X y sample_weight cv_steps
                         n_jobs forward random_state w = (w', Ok scores) →
      scores = [])
  ∧ (i < shape1 X → Some i ∉ selected_features →
     ∃ w' e, get_all_auc_scores selected_features X y sample_weight cv_steps
                                n_jobs forward random_state w
             = (w', Raise e)).
Proof.
  intros Hjobs. split.
  - intros w' scores Hrun.
    by apply get_all_auc_scores_sequential_Ok in Hrun as [-> _].
  - intros Hi Hsel. by eapply get_all_auc_scores_sequential_raises.
Qed.

Lemma cv_loop_fit_in_sequence cv_indices X y sample_weight :
  ∀ last0 (w w' : World C) last,
    cv_loop cv_indices X y sample_weight last0 w = (w', Ok last) →
    fit_in_sequence (clf_obj w) cv_indices X y sample_weight
    = Ok (clf_obj w').
Proof.
  induction cv_indices as [|[train_idx test_idx] rest IH];
    intros last0 w w' last Hrun; simpl in Hrun.
  - by injection Hrun as <- _.
  - bind_inv Hrun.
    apply lift_Ok_inv in Hstep as [-> HX_train].
    apply lift_Ok_inv in Hstep0 as [-> HX_test].
    apply lift_Ok_inv in Hstep1 as [-> Hy_train].
    apply lift_Ok_inv in Hstep2 as [-> Hsw].
    apply IH in Hrun.
    cbn [fit_in_sequence]. rewrite HX_train, HX_test, Hy_train, Hsw.
    simpl. unfold call_fit in Hstep3. bind_inv Hstep3.
    injection Hstep as <- _. unfold action in Hstep3. simpl in Hstep3.
    destruct (clf_fit _ _ _ _) as [c'|e]; [|done].
    by injection Hstep3 as <- _.
Qed.

(** C3 (as amended).  No copy of the classifier is made per fold, and
    without a process pool none per candidate either.
    (1) With [n_jobs > 1] every candidate is scored on a pickled copy, so a
    search run, whatever its outcome, leaves the caller's classifier object
    as it was.
    (2) Within one candidate evaluation the folds are fitted one after the
    other on one and the same object: when the scorer returns, the object
    it was given is in the state that fitting fold 1, then fold 2, ... on
    that single object produces, each fit starting from what the previous
    fold left. *)
Theorem classifier_copied_per_candidate_only_in_pool :
  (∀ fuel X y sample_weight n_features cv_steps n_jobs forward
     matching_features (w w' : World C) r,
      (1 < n_jobs)%Z →
      recursive_feature_selection_roc_auc
        fuel X y sample_weight n_features cv_steps n_jobs forward
        matching_features w = Some (w', r) →
      clf_obj w' = clf_obj w)
  ∧ (∀ feature_i cv_indices X y sample_weight (w w' : World C) r,
      __single_auc_score__ feature_i cv_indices X y sample_weight w
      = (w', Ok r) →
      fit_in_sequence (clf_obj w) cv_indices X y sample_weight
      = Ok (clf_obj w')).
Proof.
  split.
  - intros fuel X y sample_weight n_features cv_steps n_jobs forward
           matching_features w w' r Hjobs.
    unfold recursive_feature_selection_roc_auc.
    destruct (negb _); [by intros [= <- _]|].
    set (w1 := if bool_decide _ then _ else _).
    assert (clf_obj w1 = clf_obj w) as <-
        by (unfold w1; by case_bool_decide).
    destruct (np_zeros _ _) as [m0|e]; [|by intros [= <- _]].
    by apply search_loop_keeps_clf.
  - intros feature_i cv_indices X y sample_weight w w' r Hrun.
    unfold __single_auc_score__ in Hrun. bind_inv Hrun.
    injection Hrun as <- _.
    apply cv_loop_fit_in_sequence in Hstep. rewrite Hstep. f_equal.
    pose proof (keeps_clf_score_after_loop y a w0) as Hkeep.
    by rewrite Hstep0 in Hkeep.
Qed.

(** C5.  The two evaluation paths are not equivalent.  Whenever the search
    with a process pool ([n_jobs > 1]) returns a non-empty selection, the
    search on the same inputs and in the same world with [n_jobs <= 1]
    returns nothing: it raises in its first step. *)
Theorem sequential_search_raises_where_pool_search_returns
        fuel fuel' X y sample_weight n_features cv_steps n_jobs n_jobs'
        forward matching_features (w w1 : World C) selected_features
        auc_scores :
  (1 < n_jobs)%Z → (n_jobs' ≤ 1)%Z →
  recursive_feature_selection_roc_auc
    fuel X y sample_weight n_features cv_steps n_jobs forward
    matching_features w = Some (w1, Ok (selected_features, auc_scores)) →
  selected_features ≠ [] →
  ∃ w2 e,
    recursive_feature_selection_roc_auc
      (S fuel') X y sample_weight n_features cv_steps n_jobs' forward
      matching_features w = Some (w2, Raise e).
Proof.
  intros Hpool Hseq Hrun Hsel.
  apply search_sequential_raises; [done|].
  unfold recursive_feature_selection_roc_auc in Hrun.
  destruct (negb _); [done|].
  destruct (np_zeros _ _) as [m0|e]; [|done].
  apply search_loop_length in Hrun.
  destruct selected_features; [done|]. simpl in Hrun. lia.
Qed.

(** C6.  If [cv_steps < 2], the evaluation stage raises a [ValueError], for
    every data set, selection, [n_jobs], direction and [random_state]; up to
    then it has called neither the splitter nor the classifier nor the
    metric (the log of calls is as it was) and the classifier object is
    untouched.  With a usable [random_state] the message is the stage's
    own, "'cv_steps' must be 2 or higher". *)
Theorem get_all_auc_scores_rejects_cv_steps_below_2
        (selected_features : list nat) X y sample_weight cv_steps n_jobs
        forward random_state (w : World C) :
  (cv_steps < 2)%Z →
  ∃ w' msg,
    get_all_auc_scores (Some <$> selected_features) X y sample_weight
                       cv_steps n_jobs forward random_state w
    = (w', Raise (ValueError msg))
    ∧ log w' = log w
    ∧ clf_obj w' = clf_obj w
    ∧ (msg = "'cv_steps' must be 2 or higher"
       ∨ ∃ seed, random_state = RsInt seed ∧ ¬ (0 ≤ seed < 2 ^ 32)%Z).
Proof.
  intros Hcv. unfold get_all_auc_scores. rewrite bind_unfold.
  destruct random_state as [|seed|r]; simpl.
  - rewrite bind_unfold. unfold lift at 1.
    rewrite np_array_int_Some, bool_decide_eq_true_2 by done.
    unfold raise. eauto 10.
  - case_bool_decide as Hseed.
    + simpl. rewrite bind_unfold. unfold lift at 1.
      rewrite np_array_int_Some, bool_decide_eq_true_2 by done.
      unfold raise. eauto 10.
    + unfold raise. eauto 10.
  - rewrite bind_unfold. unfold lift at 1.
    rewrite np_array_int_Some, bool_decide_eq_true_2 by done.
    unfold raise. eauto 10.
Qed.

(** C7.  A request for more features than there are is clamped, but with
    [n_jobs <= 1] (the default) the clamped search does not complete: on a
    data set with at least one feature it raises in its first step. *)
Theorem clamped_search_raises_without_pool
        fuel X y sample_weight n_features cv_steps n_jobs forward
        matching_features (w : World C) :
  (Z.of_nat (shape1 X) < n_features)%Z → 0 < shape1 X → (n_jobs ≤ 1)%Z →
  clamp_n_features X n_features = Z.of_nat (shape1 X)
  ∧ ∃ w' e,
      recursive_feature_selection_roc_auc
        (S fuel) X y sample_weight n_features cv_steps n_jobs forward
        matching_features w = Some (w', Raise e).
Proof.
  intros Hmore Hfeat Hjobs.
  assert (clamp_n_features X n_features = Z.of_nat (shape1 X)) as Hclamp
      by (unfold clamp_n_features; by rewrite bool_decide_eq_true_2).
  split; [done|].
  apply search_sequential_raises; [done|]. rewrite Hclamp. lia.
Qed.

(** C8.  Let [n] be the requested feature count after clamping, and let the
    score matrix have been allocated.  In every state the loop of a run
    reaches after [k] completed steps, the Search State has exactly [k]
    entries (one more per step), no entry twice, at most [n] entries, and
    no index outside the feature matrix; if the metric returns only finite
    values, every entry is the index of a feature (otherwise a step whose
    scores are all not-a-number appends [None]); and whenever the loop,
    continued from there, returns, the Search State it returns has exactly
    [n] entries. *)
Theorem search_state_invariant
        X y sample_weight n_features cv_steps n_jobs forward
        matching_features m0 (w0 : World C) k sel m w :
  np_zeros (shape1 X) (clamp_n_features X n_features) = Ok m0 →
  loop_reaches X y sample_weight (clamp_n_features X n_features) cv_steps
               n_jobs forward matching_features m0 w0 k sel m w →
  length sel = k
  ∧ NoDup sel
  ∧ (Z.of_nat (length sel) ≤ clamp_n_features X n_features)%Z
  ∧ (∀ i, Some i ∈ sel → i < shape1 X)
  ∧ ((∀ y_true y_score sw a,
         roc_auc_score y_true y_score sw = Ok a → isfinite a = true) →
     ∀ o, o ∈ sel → ∃ i, o = Some i ∧ i < shape1 X)
  ∧ ∀ fuel w' sel' m',
      search_loop fuel X y sample_weight (clamp_n_features X n_features)
                  cv_steps n_jobs forward matching_features sel m w
      = Some (w', Ok (sel', m')) →
      Z.of_nat (length sel') = clamp_n_features X n_features.
Proof.
  intros Hz%np_zeros_Ok Hreach.
  destruct (loop_reaches_invariant _ _ _ _ _ _ _ _ _ _ _ _ _ _ Hz Hreach)
    as (Hlen & Hnd & Hle & Hidx).
  split; [done|]. split; [done|]. split; [done|]. split; [done|]. split.
  - intros Hfinite. eapply loop_reaches_feature_indices; [done| |done].
    split; [done|apply clamp_n_features_le].
  - intros fuel w' sel' m'. apply search_loop_length.
Qed.

(** C9 (as amended).  A negative [n_features] is not clamped, and the loop
    on its own could never leave through its guard for one; but the call
    does not get that far and does not hang: allocating the score matrix
    with [np.zeros((X.shape[1], n_features))] raises a [ValueError] (an
    [AssertionError] if the classifier fails the sanity check), with any
    amount of fuel and without a single pass through the loop. *)
Theorem negative_n_features_raises
        fuel X y sample_weight n_features cv_steps n_jobs forward
        matching_features (w : World C) :
  (n_features < 0)%Z →
  recursive_feature_selection_roc_auc
    fuel X y sample_weight n_features cv_steps n_jobs forward
    matching_features w
  = Some (w, Raise (if fulfilling (clf_obj w)
                    then ValueError "negative dimensions are not allowed"
                    else AssertionError "Classifier sanity check failed!"))
  ∧ clamp_n_features X n_features = n_features
  ∧ ∀ fuel' sel m w1 w2 sel' m',
      search_loop fuel' X y sample_weight n_features cv_steps n_jobs
                  forward matching_features sel m w1
      ≠ Some (w2, Ok (sel', m')).
Proof.
  intros Hneg.
  assert (clamp_n_features X n_features = n_features) as Hclamp
      by (unfold clamp_n_features; rewrite bool_decide_eq_false_2; lia).
  split; [|split; [done|]].
  - unfold recursive_feature_selection_roc_auc.
    destruct (fulfilling (clf_obj w)); simpl; [|done].
    rewrite Hclamp, bool_decide_eq_false_2 by lia.
    unfold np_zeros. by destruct (Z.ltb_spec n_features 0); [|lia].
  - intros fuel' sel m w1 w2 sel' m' Hrun%search_loop_length. lia.
Qed.

End Claims.

(* ===================================================================== *)
(** * The claims on concrete data *)
(* ===================================================================== *)

Import Demo Runs.

(** Proves [i ∉ l] for a literal list [l] of numbers. *)
Ltac not_in_literal :=
  let Hin := fresh in
  intros Hin;
  repeat (apply elem_of_cons in Hin as [Hin|Hin]; [discriminate|]);
  by apply elem_of_nil in Hin.

(** C10.  The search passes no seed on, so each step takes a fresh generator
    from the operating system, and the outcome depends on what the system
    hands out: (1) a run that returns has drawn exactly one fresh generator
    per selected feature; (2) there are two runs on identical inputs, from
    identical worlds, that differ only in the entropy the system supplies
    and return different selections and different score matrices. *)
Theorem search_draws_fresh_entropy_and_is_not_reproducible :
  (∀ (C : Type) (clf : Classifier C) (R : Type) (env : Environment R)
     fuel X y sample_weight n_features cv_steps n_jobs forward
     matching_features (w w' : World C) selected_features auc_scores,
      recursive_feature_selection_roc_auc
        fuel X y sample_weight n_features cv_steps n_jobs forward
        matching_features w = Some (w', Ok (selected_features, auc_scores)) →
      draws w' = draws w + length selected_features)
  ∧ ∃ entropy entropy' : nat → Z,
      let run := recursive_feature_selection_roc_auc
                   (H0 := demo_env entropy)
                   5 X6 y6 None 2 2 2 true false world0 in
      let run' := recursive_feature_selection_roc_auc
                    (H0 := demo_env entropy')
                    5 X6 y6 None 2 2 2 true false world0 in
      selected_of run = Some [Some 0; Some 1]
      ∧ selected_of run' = Some [Some 0; Some 2]
      ∧ matrix_of run
        = Some [ [Some (5 # 6); Some (5 # 6); Some (1 # 2); Some (1 # 2)];
                 [None; Some (5 # 6); Some (5 # 6); Some (5 # 6)] ]%Q
      ∧ matrix_of run'
        = Some [ [Some (2 # 3); Some (1 # 6); Some (1 # 3); Some (1 # 2)];
                 [None; Some (1 # 2); Some (2 # 3); Some (2 # 3)] ]%Q.
Proof.
  split.
  - intros. by eapply recursive_feature_selection_roc_auc_draws.
  - exists entropy0, entropy1. by vm_compute.
Qed.

(** The scored vector on concrete data: the rows 0, 2 and 4, tested in
    the first fold, carry 0 and not a prediction. *)
Lemma single_auc_score_scores_last_fold_only_witness :
  ∃ y_pred sample_weight_test,
    last (log (fst scorer_run)) = Some (EvAuc y6 y_pred sample_weight_test)
    ∧ y_pred !! 0 = Some 0%Qc
    ∧ y_pred !! 2 = Some 0%Qc
    ∧ y_pred !! 4 = Some 0%Qc.
Proof.
  assert (scorer_run
          = (fst scorer_run,
             Ok (match snd scorer_run with
                 | Ok r => r
                 | Raise _ => (0, NaN)
                 end))) as Hrun by (vm_compute; reflexivity).
  destruct (single_auc_score_scores_last_fold_only
              (H0 := demo_env entropy0) 0 [([1; 3; 5], [0; 2; 4])] [0; 2; 4] [1; 3; 5]
              X6_feature0 y6 None world0 _ _ Hrun)
    as (y_pred & swt & _ & Hlast & _ & Hzero).
  exists y_pred, swt.
  repeat split; [exact Hlast|..];
    (apply Hzero; [not_in_literal | simpl; lia]).
Defined.

Example scorer_run_scored_vector :
  (fun ev => match ev with
             | EvAuc _ y_pred _ => Some (this <$> y_pred)
             | _ => None
             end) <$> last (log (fst scorer_run))
  = Some (Some [0; 0; 0; 1; 0; 1]%Q).
Proof. vm_compute. reflexivity. Qed.

Lemma get_all_auc_scores_sequential_returns_no_array_witness :
  ∃ w' e, stage_run 1 = (w', Raise e).
Proof.
  exact (proj2 (get_all_auc_scores_sequential_returns_no_array
                  (H0 := demo_env entropy0)
                  [] X6 y6 None 2 1 true (RsInt 0) 0 world0 ltac:(lia))
               ltac:(simpl; lia) ltac:(apply not_elem_of_nil)).
Defined.

Example stage_run_sequential :
  snd (stage_run 1)
  = Raise (IndexError "list assignment index out of range").
Proof. vm_compute. reflexivity. Qed.

Example stage_run_pool :
  (fun scores : list float =>
     (fun x : float => match x with
                       | Finite a => Some (this a)
                       | _ => None
                       end) <$> scores)
    <$> (match snd (stage_run 2) with
         | Ok scores => Some scores
         | Raise _ => None
         end)
  = Some [Some (5 # 6); Some (5 # 6); Some (1 # 2); Some (1 # 2)]%Q.
Proof. vm_compute. reflexivity. Qed.

(** The claim of C3 fails on the code: a search run with the default
    [n_jobs = 1] fits the caller's own classifier object (it was never
    fitted before the run and has been fitted twice after it), and the
    second fold is not fitted on a fresh instance: the object that makes the
    predictions holds the threshold 13/6, built on top of the first fold's
    fit, where a fresh instance fitted on the second fold's training rows
    holds 4/3. *)
Lemma search_run_refits_the_callers_classifier :
  ∃ w' e,
    search_run 1 2 1 = Some (w', Raise e)
    ∧ n_fits (clf_obj world0) = 0
    ∧ n_fits (clf_obj w') = 2
    ∧ this (threshold (clf_obj w')) = (13 # 6)%Q
    ∧ ∃ X_train y_train c,
        take_rows X6_feature0 [0; 2; 4] = Ok X_train
        ∧ take_items y6 [0; 2; 4] = Ok y_train
        ∧ clf_fit fresh_stump X_train y_train None = Ok c
        ∧ this (threshold c) = (4 # 3)%Q.
Proof.
  eexists _, _. split; [vm_compute; reflexivity|].
  repeat split.
  eexists _, _, _. repeat split.
Defined.

Lemma classifier_copied_per_candidate_only_in_pool_witness :
  clf_obj (world_or world0 (search_run 5 2 2)) = clf_obj world0
  ∧ fit_in_sequence fresh_stump plan2 X6_feature0 y6 None
    = Ok (clf_obj (fst scorer_run)).
Proof.
  split.
  - refine (proj1 (classifier_copied_per_candidate_only_in_pool
                     (H0 := demo_env entropy0))
                  5 X6 y6 None 2%Z 2%Z 2%Z true false world0
                  (world_or world0 (search_run 5 2 2))
                  (match search_run 5 2 2 with
                   | Some (_, r) => r
                   | None => Raise (External "no outcome")
                   end) ltac:(lia) _).
    vm_compute. reflexivity.
  - refine (proj2 (classifier_copied_per_candidate_only_in_pool
                     (H0 := demo_env entropy0))
                  0 plan2 X6_feature0 y6 None world0 (fst scorer_run)
                  (match snd scorer_run with
                   | Ok r => r
                   | Raise _ => (0, NaN)
                   end) _).
    vm_compute. reflexivity.
Defined.

Lemma sequential_search_raises_where_pool_search_returns_witness :
  selected_of (search_run 5 2 2) = Some [Some 0; Some 1]
  ∧ ∃ w2 e, search_run 1 2 1 = Some (w2, Raise e).
Proof.
  split; [vm_compute; reflexivity|].
  refine (sequential_search_raises_where_pool_search_returns
            (H0 := demo_env entropy0)
            5 0 X6 y6 None 2 2 2 1 true false world0
            (world_or world0 (search_run 5 2 2))
            [Some 0; Some 1] (matrix_or_empty (search_run 5 2 2))
            ltac:(lia) ltac:(lia) _ ltac:(discriminate)).
  vm_compute. reflexivity.
Defined.

Lemma get_all_auc_scores_rejects_cv_steps_below_2_witness :
  ∃ w' msg,
    get_all_auc_scores (H0 := demo_env entropy0)
                       (Some <$> [1]) X6 y6 None 1 1 true RsNone world0
    = (w', Raise (ValueError msg))
    ∧ log w' = log world0
    ∧ clf_obj w' = clf_obj world0
    ∧ (msg = "'cv_steps' must be 2 or higher"
       ∨ ∃ seed, @RsNone Z = RsInt seed ∧ ¬ (0 ≤ seed < 2 ^ 32)%Z).
Proof.
  exact (get_all_auc_scores_rejects_cv_steps_below_2
           (H0 := demo_env entropy0)
           [1] X6 y6 None 1 1 true RsNone world0 ltac:(lia)).
Defined.

Lemma clamped_search_raises_without_pool_witness :
  clamp_n_features X6 7 = 4%Z
  ∧ ∃ w' e, search_run 1 7 1 = Some (w', Raise e).
Proof.
  exact (clamped_search_raises_without_pool
           (H0 := demo_env entropy0)
           0 X6 y6 None 7 2 1 true false world0
           ltac:(simpl; lia) ltac:(simpl; lia) ltac:(lia)).
Defined.

Example clamped_search_with_pool :
  selected_of (search_run 9 7 2) = Some [Some 0; Some 1; Some 2; Some 3].
Proof. vm_compute. reflexivity. Qed.

Lemma loop_reaches_state2 :
  loop_reaches (H0 := demo_env entropy0) X6 y6 None (clamp_n_features X6 2)
               2 2 true false matrix0 world0
               2 state2.1.1 state2.1.2 state2.2.
Proof.
  eapply (reaches_step (H0 := demo_env entropy0) _ _ _ _ _ _ _ _ _ _
                       1 state1.1.1 state1.1.2 state1.2).
  - eapply (reaches_step (H0 := demo_env entropy0) _ _ _ _ _ _ _ _ _ _
                         0 [] matrix0 world0).
    + apply reaches_start.
    + vm_compute. discriminate.
    + vm_compute. reflexivity.
  - vm_compute. discriminate.
  - vm_compute. reflexivity.
Defined.

Lemma search_state_invariant_witness :
  length state2.1.1 = 2
  ∧ NoDup state2.1.1
  ∧ (Z.of_nat (length state2.1.1) ≤ clamp_n_features X6 2)%Z
  ∧ (∀ i, Some i ∈ state2.1.1 → i < shape1 X6)
  ∧ ((∀ y_true y_score sw a,
         demo_auc y_true y_score sw = Ok a → isfinite a = true) →
     ∀ o, o ∈ state2.1.1 → ∃ i, o = Some i ∧ i < shape1 X6)
  ∧ ∀ fuel w' sel' m',
      search_loop (H0 := demo_env entropy0) fuel X6 y6 None
                  (clamp_n_features X6 2) 2 2 true false
                  state2.1.1 state2.1.2 state2.2
      = Some (w', Ok (sel', m')) →
      Z.of_nat (length sel') = clamp_n_features X6 2.
Proof.
  exact (search_state_invariant
           (H0 := demo_env entropy0)
           X6 y6 None 2 2 2 true false matrix0 world0
           2 state2.1.1 state2.1.2 state2.2
           eq_refl loop_reaches_state2).
Defined.

Example state2_selected : state2.1.1 = [Some 0; Some 1].
Proof. vm_compute. reflexivity. Qed.

(** The metric of the concrete setting returns finite values only. *)
Lemma demo_auc_finite y_true y_score sw a :
  demo_auc y_true y_score sw = Ok a → isfinite a = true.
Proof.
  unfold demo_auc.
  repeat match goal with
         | |- context [if ?b then _ else _] => destruct b
         end; by intros [= <-].
Qed.

Example state2_feature_indices :
  ∀ o, o ∈ state2.1.1 → ∃ i, o = Some i ∧ i < shape1 X6.
Proof.
  eapply (loop_reaches_feature_indices (H0 := demo_env entropy0));
    [apply demo_auc_finite| |apply loop_reaches_state2].
  vm_compute. split; discriminate.
Qed.

(** The claim of C9 fails on the code: with [n_features = -1] the call
    returns at once, raising, and needs no fuel for the loop. *)
Lemma negative_n_features_terminates :
  recursive_feature_selection_roc_auc (H0 := demo_env entropy0)
    0 X6 y6 None (-1) 2 1 true true world0
  = Some (world0, Raise (ValueError "negative dimensions are not allowed")).
Proof. vm_compute. reflexivity. Defined.

Lemma negative_n_features_raises_witness :
  recursive_feature_selection_roc_auc (H0 := demo_env entropy0)
    3 X6 y6 None (-1) 2 1 true true world0
  = Some (world0, Raise (ValueError "negative dimensions are not allowed"))
  ∧ clamp_n_features X6 (-1) = (-1)%Z.
Proof.
  destruct (negative_n_features_raises
              (H0 := demo_env entropy0)
              3 X6 y6 None (-1) 2 1 true true world0 ltac:(lia))
    as (Hrun & Hclamp & _).
  split; [exact Hrun|exact Hclamp].
Defined.

Lemma search_draws_fresh_entropy_and_is_not_reproducible_witness :
  draws (world_or world0 (search_run 5 2 2)) = 0 + 2.
Proof.
  refine (proj1 search_draws_fresh_entropy_and_is_not_reproducible
                stump _ Z (demo_env entropy0)
                5 X6 y6 None 2%Z 2%Z 2%Z true false world0
                (world_or world0 (search_run 5 2 2))
                [Some 0; Some 1] (matrix_or_empty (search_run 5 2 2)) _).
  vm_compute. reflexivity.
Defined.

(* ===================================================================== *)
(** * Further properties of the three functions *)
(* ===================================================================== *)

Import FurtherRuns.

(* ===================================================================== *)
(** * Further properties of the selection policy *)
(* ===================================================================== *)

(** X1.  The policy has no winner exactly when the score array holds no
    finite entry (an empty array, or nothing but not-a-number and
    infinities): [index_best] is then still [None], and no exception is
    raised by the scan. *)
Theorem select_best_None_iff_no_finite_entry
        (matching_features forward : bool) (scores : list float) :
  select_best matching_features forward scores = None
  ↔ Forall (fun x => isfinite x = false) scores.
Proof.
  split.
  - intros Hnone. apply Forall_lookup_2. intros i x Hx.
    destruct x as [a| |neg]; try done.
    destruct (select_best_None _ _ _ Hnone i a Hx).
  - intros Hall.
    destruct (select_best matching_features forward scores) as [ib|] eqn:Hs;
      [|done].
    apply select_best_Some in Hs as (vb & Hvb & _).
    by apply (Forall_lookup_1 _ _ _ _ Hall) in Hvb.
Qed.

Lemma select_best_None_iff_no_finite_entry_witness :
  select_best true false [NaN; Inf true; NaN; Inf false] = None
  ∧ select_best false true [] = None.
Proof.
  split.
  - apply (proj2 (select_best_None_iff_no_finite_entry true false
                    [NaN; Inf true; NaN; Inf false])).
    repeat constructor.
  - apply (proj2 (select_best_None_iff_no_finite_entry false true [])).
    constructor.
Defined.

(* ===================================================================== *)
(** * Further properties of the evaluation stage *)
(* ===================================================================== *)

Section CountingFacts.

(** Counting the entries of a list with a property that the index
    decides. *)
Lemma length_filter_by_index {A} (P : A → Prop) `{∀ x, Decision (P x)}
      (Q : nat → Prop) `{∀ i, Decision (Q i)} (l : list A) :
  (∀ i x, l !! i = Some x → (P x ↔ Q i)) →
  length (filter P l) = length (filter Q (seq 0 (length l))).
Proof.
  induction l as [|x l IH] using rev_ind; intros HPQ; [done|].
  rewrite length_app. simpl. rewrite Nat.add_1_r, seq_S, !filter_app.
  rewrite !length_app. f_equal.
  - apply IH. intros i y Hy. apply HPQ. by rewrite lookup_app_l
      by (by eapply lookup_lt_Some).
  - simpl. specialize (HPQ (length l) x).
    rewrite lookup_app_r, Nat.sub_diag in HPQ by lia.
    specialize (HPQ eq_refl).
    destruct (decide (P x)), (decide (Q (length l)));
      rewrite ?filter_cons_True, ?filter_cons_False by done;
      simpl; tauto || done.
Qed.

(** Among [total] features, those not in a duplicate-free selection. *)
Lemma length_unselected (sel : list nat) total :
  NoDup sel → (∀ i, i ∈ sel → i < total) →
  length (filter (fun i => i ∉ sel) (seq 0 total)) + length sel = total.
Proof.
  intros Hnd Hrange.
  assert (filter (fun i => i ∈ sel) (seq 0 total) ≡ₚ sel) as Hsel.
  { apply NoDup_Permutation; [apply NoDup_filter, NoDup_seq|done|].
    intros x. rewrite list_elem_of_filter, elem_of_seq.
    split; [tauto|]. intros Hx. specialize (Hrange x Hx). split; [done|lia]. }
  pose proof (filter_app_complement (fun i => i ∈ sel) (seq 0 total)) as Hc.
  apply Permutation_length in Hc. rewrite length_app, Hsel, length_seq in Hc.
  lia.
Qed.

End CountingFacts.

Section StageExtras.

Context {C : Type} `{Classifier C} {R : Type} `{Environment R}.

(** X2.  With a process pool ([n_jobs > 1]), a score array the stage
    returns has one entry per feature: not-a-number at every feature
    already selected, and at every other feature a value that
    [roc_auc_score] returned for the labels [y].  If the metric returns
    finite values only and the selection holds distinct feature indices,
    the array has exactly (feature count - selected count) finite
    entries. *)
Theorem pool_stage_score_array
        (sel : list nat) X y sample_weight cv_steps n_jobs forward
        random_state (w w' : World C) scores :
  (1 < n_jobs)%Z →
  get_all_auc_scores (Some <$> sel) X y sample_weight cv_steps n_jobs
                     forward random_state w = (w', Ok scores) →
  length scores = shape1 X
  ∧ (∀ i, i < shape1 X → i ∈ sel → scores !! i = Some NaN)
  ∧ (∀ i, i < shape1 X → i ∉ sel →
          ∃ auc y_pred sample_weight_test,
            scores !! i = Some auc
            ∧ roc_auc_score y y_pred sample_weight_test = Ok auc)
  ∧ ((∀ y_true y_score sw a,
         roc_auc_score y_true y_score sw = Ok a → isfinite a = true) →
     NoDup sel → (∀ i, i ∈ sel → i < shape1 X) →
     length (filter finite_entry scores) + length sel = shape1 X).
Proof.
  intros Hjobs Hrun.
  apply get_all_auc_scores_parallel_Ok in Hrun
    as (sel' & Hsel & Hlen & Hnan & Hauc); [|done].
  apply (inj (fmap Some)) in Hsel as <-.
  split; [done|]. split; [done|]. split; [done|].
  intros Hfinite Hnd Hrange.
  pose proof (length_unselected sel (shape1 X) Hnd Hrange) as Hun.
  enough (length (filter finite_entry scores)
          = length (filter (fun i => i ∉ sel) (seq 0 (shape1 X)))) by lia.
  rewrite <- Hlen.
  apply length_filter_by_index. intros i x Hx.
  assert (i < shape1 X) as Hi
      by (rewrite <- Hlen; by eapply lookup_lt_Some).
  unfold finite_entry. destruct (decide (i ∈ sel)) as [Hin|Hin].
  - rewrite (Hnan i Hi Hin) in Hx. injection Hx as <-. done.
  - destruct (Hauc i Hi Hin) as (auc & y_pred & swt & Hlook & Hroc).
    rewrite Hlook in Hx. injection Hx as <-.
    apply Hfinite in Hroc. done.
Qed.

End StageExtras.

Lemma pool_stage_score_array_witness :
  length pool_scores = shape1 X6
  ∧ length (filter finite_entry pool_scores) + length (@nil nat) = shape1 X6.
Proof.
  assert (get_all_auc_scores (H0 := demo_env entropy0)
            (Some <$> []) X6 y6 None 2 2 true (RsInt 0) world0
          = (fst (stage_run 2), Ok pool_scores)) as Hrun
      by (vm_compute; reflexivity).
  destruct (pool_stage_score_array
              (H0 := demo_env entropy0) [] X6 y6 None 2%Z 2%Z true
              (RsInt 0%Z) world0 (fst (stage_run 2)) pool_scores
              ltac:(lia) Hrun) as (Hlen & _ & _ & Hcount).
  clear Hrun. split; [exact Hlen|].
  apply Hcount; [apply demo_auc_finite|constructor|].
  intros i Hi%elem_of_nil. destruct Hi.
Defined.

Example pool_scores_finite_entries :
  length (filter finite_entry pool_scores) = 4.
Proof. vm_compute. reflexivity. Qed.

(* ===================================================================== *)
(** * Further properties of the search loop *)
(* ===================================================================== *)

Section SearchExtras.

Context {C : Type} `{Classifier C} {R : Type} `{Environment R}.

Lemma set_column_Ok m s v m' :
  set_column m s v = Ok m' → length v = n_rows m →
  s < length (columns m)
  ∧ n_rows m' = n_rows m
  ∧ columns m' = <[s := v]> (columns m).
Proof.
  unfold set_column. case_bool_decide as Hs; simpl; [|done].
  intros Hset Hlen. rewrite bool_decide_eq_true_2 in Hset by done.
  by injection Hset as <-.
Qed.

Lemma get_all_auc_scores_Ok_selected
      selected_features X y sample_weight cv_steps n_jobs forward
      random_state (w w' : World C) scores :
  get_all_auc_scores selected_features X y sample_weight cv_steps n_jobs
                     forward random_state w = (w', Ok scores) →
  ∃ sel, selected_features = Some <$> sel.
Proof.
  intros Hrun. destruct (decide (1 < n_jobs)%Z) as [Hjobs|Hjobs].
  - apply get_all_auc_scores_parallel_Ok in Hrun as (sel & -> & _);
      [eauto|done].
  - apply get_all_auc_scores_sequential_Ok in Hrun as [_ Hsel];
      [done|lia].
Qed.

(** The score array of a completed step fits the score matrix: it is
    written as it is, has one entry per feature and not-a-number at the
    features selected before. *)
Lemma loop_body_column X y sample_weight cv_steps n_jobs forward
      matching_features sel m (w w' : World C) sel' m' :
  n_rows m = shape1 X →
  loop_body X y sample_weight cv_steps n_jobs forward matching_features
            sel m w = (w', Ok (sel', m')) →
  ∃ scores,
    sel' = sel ++ [select_best matching_features forward scores]
    ∧ length sel < length (columns m)
    ∧ n_rows m' = shape1 X
    ∧ columns m' = <[length sel := scores]> (columns m)
    ∧ length scores = shape1 X
    ∧ ∀ f, f < shape1 X → Some f ∈ sel → scores !! f = Some NaN.
Proof.
  intros Hrows (scores & Hstage & -> & Hset)%loop_body_Ok.
  exists scores. split; [done|].
  destruct (decide (1 < n_jobs)%Z) as [Hjobs|Hjobs].
  - apply get_all_auc_scores_parallel_Ok in Hstage
      as (sel_nat & -> & Hlen & Hnan & _); [|done].
    apply set_column_Ok in Hset as (Hs & Hrows' & Hcols); [|congruence].
    repeat split; [done|congruence|done|done|].
    intros f Hf (j & [= <-] & Hin)%list_elem_of_fmap. by apply Hnan.
  - apply get_all_auc_scores_sequential_Ok in Hstage as [-> _]; [|lia].
    unfold set_column in Hset. case_bool_decide as Hs; simpl in Hset; [|done].
    case_bool_decide as Hlen; [|done]. injection Hset as <-. simpl in *.
    repeat split; [done|done|congruence|]. intros f Hf. lia.
Qed.

(** What the score matrix holds in a state the loop reaches: the columns
    of the completed steps are the steps' score arrays, from which the
    policy picked the step's feature; the columns of the steps to come are
    still the zeros of [np.zeros]. *)
Lemma loop_reaches_matrix X y sample_weight n_features cv_steps n_jobs
      forward matching_features m0 (w0 : World C) k sel m w :
  np_zeros (shape1 X) n_features = Ok m0 →
  loop_reaches X y sample_weight n_features cv_steps n_jobs forward
               matching_features m0 w0 k sel m w →
  n_rows m = shape1 X
  ∧ length (columns m) = Z.to_nat n_features
  ∧ (∀ s, s < k →
          ∃ col, columns m !! s = Some col
                 ∧ length col = shape1 X
                 ∧ sel !! s = Some (select_best matching_features forward col)
                 ∧ ∀ f, f < shape1 X → Some f ∈ take s sel →
                        col !! f = Some NaN)
  ∧ (∀ s, k ≤ s → s < Z.to_nat n_features →
          columns m !! s = Some (replicate (shape1 X) (Finite 0%Qc))).
Proof.
  intros Hzeros Hreach.
  assert (0 ≤ n_features)%Z as Hn by (by eapply np_zeros_Ok).
  induction Hreach as [|k sel m w sel' m' w' Hreach IH Hguard Hbody].
  - unfold np_zeros in Hzeros.
    destruct (Z.ltb_spec n_features 0); [done|].
    injection Hzeros as <-. simpl. rewrite length_replicate.
    split; [done|]. split; [done|]. split; [intros s Hs; lia|].
    intros s _ Hs. by apply lookup_replicate_2.
  - destruct IH as (Hrows & Hcols & Hdone & Htodo).
    destruct (loop_reaches_invariant _ _ _ _ _ _ _ _ _ _ _ _ _ _ Hn Hreach)
      as (Hlen & _).
    apply loop_body_column in Hbody
      as (scores & -> & Hk & Hrows' & Hcols' & Hscores & Hnan); [|done].
    rewrite Hcols', length_insert, Hlen.
    split; [done|]. split; [done|]. split.
    + intros s Hs. destruct (decide (s = k)) as [->|Hne].
      * exists scores. rewrite list_lookup_insert_eq by lia.
        split; [done|]. split; [done|]. split.
        -- by rewrite lookup_app_r, Hlen, Nat.sub_diag by lia.
        -- intros f Hf Hin. apply Hnan; [done|].
           by rewrite <- Hlen, take_app_length in Hin.
      * destruct (Hdone s ltac:(lia)) as (col & Hcol & Hlcol & Hsel & Hnan').
        exists col. rewrite list_lookup_insert_ne by done.
        split; [done|]. split; [done|]. split.
        -- rewrite lookup_app_l by lia. done.
        -- intros f Hf Hin. apply Hnan'; [done|].
           by rewrite take_app_le in Hin by lia.
    + intros s Hs Hs'. rewrite list_lookup_insert_ne by lia.
      apply Htodo; lia.
Qed.

(** X3.  What a search that returns hands back fits together: the score
    matrix has one column per selected feature and one row per feature;
    the feature selected in step [s] is the one the selection policy picks
    from column [s]; and column [s] holds not-a-number at every feature
    selected in an earlier step. *)
Theorem search_result_consistent
        fuel X y sample_weight n_features cv_steps n_jobs forward
        matching_features (w w' : World C) sel m :
  recursive_feature_selection_roc_auc
    fuel X y sample_weight n_features cv_steps n_jobs forward
    matching_features w = Some (w', Ok (sel, m)) →
  n_rows m = shape1 X
  ∧ length (columns m) = length sel
  ∧ ∀ s, s < length sel →
         ∃ col, columns m !! s = Some col
                ∧ length col = shape1 X
                ∧ sel !! s = Some (select_best matching_features forward col)
                ∧ ∀ f, f < shape1 X → Some f ∈ take s sel →
                       col !! f = Some NaN.
Proof.
  unfold recursive_feature_selection_roc_auc.
  destruct (negb _); [done|].
  destruct (np_zeros _ _) as [m0|e] eqn:Hz; [|done].
  intros Hrun.
  pose proof (search_loop_length _ _ _ _ _ _ _ _ _ _ _ _ _ _ _ Hrun) as Hlen.
  pose proof (np_zeros_Ok _ _ _ Hz) as Hn.
  eapply search_loop_reaches in Hrun as [k Hreach]; [|apply reaches_start].
  destruct (loop_reaches_invariant _ _ _ _ _ _ _ _ _ _ _ _ _ _ Hn Hreach)
    as (Hk & _).
  apply loop_reaches_matrix in Hreach as (Hrows & Hcols & Hdone & _);
    [|done].
  split; [done|]. split; [lia|].
  intros s Hs. apply Hdone. lia.
Qed.

Lemma search_loop_draws_bound fuel X y sample_weight n_features cv_steps
      n_jobs forward matching_features :
  ∀ sel m (w w' : World C) r,
    (Z.of_nat (length sel) ≤ n_features)%Z →
    search_loop fuel X y sample_weight n_features cv_steps n_jobs forward
                matching_features sel m w = Some (w', r) →
    (Z.of_nat (draws w')
     ≤ Z.of_nat (draws w) + (n_features - Z.of_nat (length sel)))%Z.
Proof.
  induction fuel as [|fuel IH]; intros sel m w w' r Hle Hrun;
    simpl in Hrun; case_bool_decide as Hguard; try done;
    try (injection Hrun as <- _; lia).
  pose proof (loop_body_draws X y sample_weight cv_steps n_jobs forward
                matching_features sel m w) as Hd.
  destruct (loop_body _ _ _ _ _ _ _ _ _ _) as [w1 [[sel1 m1]|e]] eqn:Hb;
    simpl in Hd.
  - apply loop_body_appends_new in Hb as (ib & -> & _).
    apply IH in Hrun; rewrite length_app in *; simpl in *; lia.
  - injection Hrun as <- _. lia.
Qed.

(** X4.  The search always ends, by returning or by raising, and it calls
    the evaluation stage at most once per requested feature: with fuel for
    the clamped [n_features] passes the loop has an outcome, and the number
    of generators drawn from the operating system, one per call of the
    stage, has grown by at most the clamped [n_features]. *)
Theorem search_ends_within_requested_steps
        fuel X y sample_weight n_features cv_steps n_jobs forward
        matching_features (w : World C) :
  (clamp_n_features X n_features ≤ Z.of_nat fuel)%Z →
  ∃ w' r,
    recursive_feature_selection_roc_auc
      fuel X y sample_weight n_features cv_steps n_jobs forward
      matching_features w = Some (w', r)
    ∧ (Z.of_nat (draws w')
       ≤ Z.of_nat (draws w) + Z.max 0 (clamp_n_features X n_features))%Z.
Proof.
  intros Hfuel.
  destruct (recursive_feature_selection_roc_auc_terminates
              fuel X y sample_weight n_features cv_steps n_jobs forward
              matching_features w Hfuel) as [[w' r] Hrun].
  exists w', r. split; [done|].
  unfold recursive_feature_selection_roc_auc in Hrun.
  destruct (negb _); [injection Hrun as <- _; lia|].
  set (w1 := if bool_decide _ then _ else _) in Hrun.
  assert (draws w1 = draws w) as Hw1 by (unfold w1; by case_bool_decide).
  destruct (np_zeros _ _) as [m0|e] eqn:Hz;
    [|injection Hrun as <- _; lia].
  apply np_zeros_Ok in Hz.
  apply search_loop_draws_bound in Hrun; simpl in *; lia.
Qed.

(** ** Backward elimination down to the last feature *)

(** In backward mode with exactly one feature left, the candidate's column
    set is the empty list, which [np.array] turns into an empty float
    array; indexing [X] with it fails while [process_args] is built. *)
Lemma get_all_auc_scores_backward_one_left_raises
      (sel : list nat) X y sample_weight cv_steps n_jobs random_state f
      (w : World C) :
  test_features_of X sel = [f] →
  ∃ w' e,
    get_all_auc_scores (Some <$> sel) X y sample_weight cv_steps n_jobs
                       false random_state w = (w', Raise e)
    ∧ clf_obj w' = clf_obj w
    ∧ (log w' = log w ∨ log w' = log w ++ [EvSplit cv_steps]).
Proof.
  intros Hone. unfold get_all_auc_scores. rewrite bind_unfold.
  pose proof (keeps_clf_make_RandomState (C:=C) random_state w) as Hclf.
  assert (log (fst (make_RandomState (C:=C) random_state w)) = log w)
    as Hlog.
  { destruct random_state as [|seed|r]; simpl; [done| |done].
    by case_bool_decide. }
  destruct (make_RandomState random_state w) as [w1 [rs|e]];
    simpl in Hclf, Hlog; [|by eauto 10].
  rewrite bind_unfold. unfold lift at 1. rewrite np_array_int_Some.
  case_bool_decide; [unfold raise; by eauto 10|].
  rewrite bind_unfold. unfold call_split. rewrite bind_unfold. simpl.
  unfold lift at 1.
  destruct (StratifiedKFold_split rs cv_steps X y) as [cv_indices|e];
    [|rewrite Hlog; by eauto 10].
  rewrite Hone. rewrite bind_unfold. unfold lift at 1. simpl.
  rewrite bool_decide_eq_true_2 by done. simpl.
  rewrite Hlog. eauto 10.
Qed.

(** X5.  Backward elimination cannot eliminate every feature.  A backward
    search asked for at least as many features as there are (and at least
    one) never returns a selection: with whatever [n_jobs] it ends in an
    exception.  (If no step fails before, the step that evaluates the last
    feature left does: its column set is the empty float array of
    [np.array([])], which [X[:, test_set]] refuses.) *)
Theorem backward_search_of_all_features_raises
        fuel X y sample_weight n_features cv_steps n_jobs matching_features
        (w : World C) :
  0 < shape1 X → (Z.of_nat (shape1 X) ≤ n_features)%Z →
  shape1 X ≤ fuel →
  ∃ w' e,
    recursive_feature_selection_roc_auc
      fuel X y sample_weight n_features cv_steps n_jobs false
      matching_features w = Some (w', Raise e).
Proof.
  intros Hfeat Hall Hfuel.
  assert (clamp_n_features X n_features = Z.of_nat (shape1 X)) as Hclamp
      by (unfold clamp_n_features; case_bool_decide; lia).
  destruct (recursive_feature_selection_roc_auc_terminates
              fuel X y sample_weight n_features cv_steps n_jobs false
              matching_features w ltac:(lia)) as [[w' [[sel m]|e]] Hrun];
    [|by eauto].
  exfalso. unfold recursive_feature_selection_roc_auc in Hrun.
  destruct (negb _); [done|]. rewrite Hclamp in Hrun.
  destruct (np_zeros _ _) as [m0|e] eqn:Hz; [|done].
  pose proof (search_loop_length _ _ _ _ _ _ _ _ _ _ _ _ _ _ _ Hrun) as Hlen.
  eapply search_loop_reaches in Hrun as [k Hreach]; [|apply reaches_start].
  inversion Hreach as [|k0 sel0 m1 w1 sel1 m2 w2 Hreach0 Hguard Hbody];
    subst; [simpl in Hlen; lia|].
  destruct (loop_reaches_invariant
              X y sample_weight (Z.of_nat (shape1 X)) _ _ _ _ _ _ _ _ _ _
              ltac:(lia) Hreach0) as (Hk0 & Hnd & _ & Hidx).
  pose proof Hbody as Hnew.
  apply loop_body_appends_new in Hnew as (ib & -> & _).
  rewrite length_app in Hlen. simpl in Hlen.
  apply loop_body_Ok in Hbody as (scores & Hstage & _).
  destruct (get_all_auc_scores_Ok_selected _ _ _ _ _ _ _ _ _ _ _ Hstage)
    as [sel_nat ->].
  rewrite length_fmap in Hlen.
  apply NoDup_fmap_1 in Hnd.
  assert (∀ i, i ∈ sel_nat → i < shape1 X) as Hrange.
  { intros i Hi. apply Hidx. by apply list_elem_of_fmap_2. }
  pose proof (length_unselected sel_nat (shape1 X) Hnd Hrange) as Hun.
  destruct (test_features_of X sel_nat) as [|f [|f' rest]] eqn:Htf;
    unfold test_features_of in Htf; rewrite Htf in Hun; simpl in Hun;
    try lia.
  destruct (get_all_auc_scores_backward_one_left_raises
              sel_nat X y sample_weight cv_steps n_jobs RsNone f w1 Htf)
    as (w3 & e & Hraise & _).
  congruence.
Qed.

(** ** Invalid fold counts and selections *)

(** X6.  The fold count is only checked when a step is taken.  With
    [cv_steps < 2] a search for at least one feature raises the stage's
    [ValueError] in its first pass, before the classifier is touched; a
    search for no feature returns the empty selection and a score matrix
    without columns, and never looks at [cv_steps]. *)
Theorem search_checks_cv_steps_in_first_step
        fuel X y sample_weight n_features cv_steps n_jobs forward
        matching_features (w : World C) :
  (cv_steps < 2)%Z → fulfilling (clf_obj w) = true →
  (0 ≤ clamp_n_features X n_features)%Z →
  ∃ w',
    clf_obj w' = clf_obj w
    ∧ recursive_feature_selection_roc_auc
        (S fuel) X y sample_weight n_features cv_steps n_jobs forward
        matching_features w
      = Some (w',
              if bool_decide (clamp_n_features X n_features = 0)%Z
              then Ok ([], {| n_rows := shape1 X; columns := [] |})
              else Raise (ValueError "'cv_steps' must be 2 or higher")).
Proof.
  intros Hcv Hclf Hn. unfold recursive_feature_selection_roc_auc.
  rewrite Hclf. simpl negb. cbv iota.
  set (w1 := if bool_decide _ then _ else _).
  assert (clf_obj w1 = clf_obj w) as Hw1 by (unfold w1; by case_bool_decide).
  unfold np_zeros. destruct (Z.ltb_spec (clamp_n_features X n_features) 0);
    [lia|].
  case_bool_decide as Hzero.
  - rewrite Hzero. simpl. eexists. split; [|reflexivity]. done.
  - cbn [search_loop].
    rewrite bool_decide_eq_true_2 by (simpl; lia).
    unfold loop_body, get_all_auc_scores, make_RandomState.
    rewrite !bind_unfold. simpl.
    rewrite bool_decide_eq_true_2 by done. simpl.
    eexists. split; [|reflexivity]. done.
Qed.

Lemma np_array_int_None selected_features :
  None ∈ selected_features →
  ∃ msg, np_array_int selected_features = Raise (TypeError msg).
Proof.
  induction selected_features as [|[i|] rest IH]; intros Hin.
  - by apply elem_of_nil in Hin.
  - apply elem_of_cons in Hin as [|Hin]; [done|].
    destruct (IH Hin) as [msg Hmsg]. exists msg. simpl. by rewrite Hmsg.
  - simpl. eauto.
Qed.

(** X7.  A step without any finite score leaves [None] in the selection,
    and the selection is not checked when it is appended to.  Once [None]
    is in it, a search that still has features to select raises a
    [TypeError] in its next pass, when the stage converts the selection to
    an int array: before the fold count is checked, before a CV plan is
    built, and without touching the classifier. *)
Theorem search_with_None_selected_raises_TypeError
        fuel X y sample_weight n_features cv_steps n_jobs forward
        matching_features sel m (w : World C) :
  None ∈ sel → Z.of_nat (length sel) ≠ n_features →
  ∃ w' msg,
    search_loop (S fuel) X y sample_weight n_features cv_steps n_jobs
                forward matching_features sel m w
    = Some (w', Raise (TypeError msg))
    ∧ log w' = log w
    ∧ clf_obj w' = clf_obj w.
Proof.
  intros Hnone Hguard. simpl.
  rewrite bool_decide_eq_true_2 by done.
  unfold loop_body, get_all_auc_scores, make_RandomState.
  rewrite !bind_unfold. simpl. unfold lift at 1.
  destruct (np_array_int_None sel Hnone) as [msg ->]. eauto 10.
Qed.

End SearchExtras.

(* ===================================================================== *)
(** * Further properties of the single-candidate scorer *)
(* ===================================================================== *)

Section ScorerExtras.

Context {C : Type} `{Classifier C} {R : Type} `{Environment R}.

Lemma call_fit_Ok X_train y_train sw (w w' : World C) u :
  call_fit X_train y_train sw w = (w', Ok u) →
  log w' = log w ++ [EvFit X_train y_train sw].
Proof.
  unfold call_fit. intros Hrun. bind_inv Hrun.
  injection Hstep as <- _. unfold action in Hrun. simpl in Hrun.
  destruct (clf_fit _ _ _ _); [|done]. by injection Hrun as <- _.
Qed.

Lemma cv_loop_calls cv_indices X y sample_weight :
  ∀ last0 (w w' : World C) last,
    cv_loop cv_indices X y sample_weight last0 w = (w', Ok last) →
    ∃ fits, log w' = log w ++ fits ∧ fits_folds X y cv_indices fits.
Proof.
  induction cv_indices as [|[train_idx test_idx] rest IH];
    intros last0 w w' last Hrun; simpl in Hrun.
  - injection Hrun as <- _. exists []. rewrite app_nil_r.
    split; [done|constructor].
  - bind_inv Hrun.
    apply lift_Ok_inv in Hstep as [-> HX_train].
    apply lift_Ok_inv in Hstep0 as [-> _].
    apply lift_Ok_inv in Hstep1 as [-> Hy_train].
    apply lift_Ok_inv in Hstep2 as [-> _].
    apply call_fit_Ok in Hstep3.
    apply IH in Hrun as (fits & Hlog & Hfits).
    exists (EvFit a a1 (fst a2) :: fits).
    split; [by rewrite Hlog, Hstep3, <- app_assoc|].
    constructor; [|done]. simpl. eauto 10.
Qed.

Lemma score_after_loop_calls y test_idx X_test sample_weight_test
      (w w' : World C) auc :
  score_after_loop y (Some (test_idx, X_test, sample_weight_test)) w
  = (w', Ok auc) →
  ∃ y_pred,
    log w' = log w ++ [EvPredict X_test; EvAuc y y_pred sample_weight_test]
    ∧ roc_auc_score y y_pred sample_weight_test = Ok auc.
Proof.
  intros Hrun. simpl in Hrun. bind_inv Hrun.
  unfold call_predict_proba in Hstep. bind_inv Hstep.
  injection Hstep2 as <- _. unfold action in Hstep. injection Hstep as <- _.
  apply lift_Ok_inv in Hstep0 as [-> _].
  apply lift_Ok_inv in Hstep1 as [-> _].
  unfold call_roc_auc_score in Hrun. bind_inv Hrun.
  injection Hstep as <- _. apply lift_Ok_inv in Hrun as [-> Hauc].
  exists a1. simpl. by rewrite <- app_assoc.
Qed.

(** X8.  A candidate evaluation that returns has called the classifier's
    [fit] once per fold, in the order of the plan and on each fold's
    training rows, then [predict_proba] exactly once, and then
    [roc_auc_score] exactly once, whose value it returns together with the
    candidate's index; it makes no other call. *)
Theorem single_auc_score_calls
        feature_i cv_indices X y sample_weight (w w' : World C) r :
  __single_auc_score__ feature_i cv_indices X y sample_weight w
  = (w', Ok r) →
  fst r = feature_i
  ∧ ∃ fits X_test y_pred sample_weight_test,
      log w' = log w ++ fits
                     ++ [EvPredict X_test;
                         EvAuc y y_pred sample_weight_test]
      ∧ fits_folds X y cv_indices fits
      ∧ roc_auc_score y y_pred sample_weight_test = Ok (snd r).
Proof.
  intros Hrun. unfold __single_auc_score__ in Hrun. bind_inv Hrun.
  injection Hrun as <- <-. split; [done|].
  pose proof Hstep as Hcalls.
  apply cv_loop_calls in Hcalls as (fits & Hlog & Hfits).
  apply cv_loop_nonempty in Hstep as [[_ ->]|(te & Xt & swt & ->)];
    [done|].
  apply score_after_loop_calls in Hstep0 as (y_pred & Hlog' & Hauc).
  exists fits, Xt, y_pred, swt.
  split; [by rewrite Hlog', Hlog, <- app_assoc|done].
Qed.

Lemma take_items_length {A} (a : list A) idx r :
  take_items a idx = Ok r → length r = length idx.
Proof.
  revert r. induction idx as [|i idx IH]; intros r Hr; simpl in Hr.
  - by injection Hr as <-.
  - destruct (a !! i); [|done].
    apply result_bind_Ok_inv in Hr as (r' & Hr' & [= <-]).
    simpl. by rewrite (IH r').
Qed.

Lemma cv_loop_last_weights front train_last test_last X y sw :
  ∀ last0 (w w' : World C) last,
    cv_loop (front ++ [(train_last, test_last)]) X y (Some sw) last0 w
    = (w', Ok last) →
    ∃ X_test sw_test,
      last = Some (test_last, X_test, Some sw_test)
      ∧ length sw_test = length test_last.
Proof.
  induction front as [|[train_idx test_idx] front IH];
    intros last0 w w' last Hrun; simpl in Hrun.
  - bind_inv Hrun.
    apply lift_Ok_inv in Hstep2 as [-> Hsw].
    apply result_bind_Ok_inv in Hsw as (sw_train & _ & Hsw).
    apply result_bind_Ok_inv in Hsw as (sw_test & Hsw_test & [= <-]).
    injection Hrun as <- <-. simpl.
    apply take_items_length in Hsw_test. eauto.
  - bind_inv Hrun. eauto.
Qed.

(** X9.  Sample weights reach the metric cut down to the last fold's test
    rows, while the labels and predictions it gets cover all rows.  So
    with a metric that insists on one weight per label, as scikit-learn's
    does, a candidate evaluation with sample weights never returns a score
    unless the last fold tests as many rows as there are labels: it
    raises. *)
Theorem single_auc_score_with_weights_raises
        feature_i front train_last test_last X y sw (w : World C) :
  (∀ y_true y_score weights a,
      roc_auc_score y_true y_score (Some weights) = Ok a →
      length weights = length y_true) →
  length test_last ≠ length y →
  ∃ w' e,
    __single_auc_score__ feature_i (front ++ [(train_last, test_last)])
                         X y (Some sw) w = (w', Raise e).
Proof.
  intros Hmetric Hlen.
  destruct (__single_auc_score__ _ _ _ _ _ _) as [w' [r|e]] eqn:Hrun;
    [|by eauto].
  exfalso. unfold __single_auc_score__ in Hrun. bind_inv Hrun.
  apply cv_loop_last_weights in Hstep as (X_test & sw_test & -> & Hsw).
  apply score_after_loop_Ok in Hstep0 as (y_pred & Hauc & _).
  apply Hmetric in Hauc. congruence.
Qed.

End ScorerExtras.

Lemma single_auc_score_calls_witness :
  ∃ fits X_test y_pred sample_weight_test,
    log (fst scorer_run)
    = log world0 ++ fits ++ [EvPredict X_test;
                             EvAuc y6 y_pred sample_weight_test]
    ∧ fits_folds X6_feature0 y6 plan2 fits.
Proof.
  assert (__single_auc_score__ (H0 := demo_env entropy0)
            0 plan2 X6_feature0 y6 None world0
          = (fst scorer_run,
             Ok (match snd scorer_run with
                 | Ok r => r
                 | Raise _ => (1, NaN)
                 end))) as Hrun by (vm_compute; reflexivity).
  destruct (single_auc_score_calls (H0 := demo_env entropy0)
              0 plan2 X6_feature0 y6 None world0 (fst scorer_run)
              (match snd scorer_run with
               | Ok r => r
               | Raise _ => (1, NaN)
               end) Hrun)
    as (_ & fits & X_test & y_pred & swt & Hlog & Hfits & _).
  clear Hrun. exists fits, X_test, y_pred, swt.
  split; [exact Hlog|exact Hfits].
Defined.

Example scorer_run_call_count : length (log (fst scorer_run)) = 4.
Proof. vm_compute. reflexivity. Qed.

(** The metric of the concrete setting wants one weight per label. *)
Lemma demo_auc_consistent y_true y_score weights a :
  demo_auc y_true y_score (Some weights) = Ok a →
  length weights = length y_true.
Proof.
  unfold demo_auc. simpl.
  destruct (bool_decide (length y_score = length y_true)); simpl; [|done].
  case_bool_decide; simpl; done.
Qed.

Lemma single_auc_score_with_weights_raises_witness :
  ∃ w' e, weighted_scorer_run = (w', Raise e).
Proof.
  exact (single_auc_score_with_weights_raises (H0 := demo_env entropy0)
           0 [([1; 3; 5], [0; 2; 4])] [0; 2; 4] [1; 3; 5]
           X6_feature0 y6 weights6 world0
           demo_auc_consistent ltac:(simpl; lia)).
Defined.

Example weighted_scorer_run_error :
  snd weighted_scorer_run
  = Raise (ValueError "Found input variables with inconsistent numbers of samples").
Proof. vm_compute. reflexivity. Qed.

(* ===================================================================== *)
(** * Further properties of the stage: seeds, plans, column sets *)
(* ===================================================================== *)

Section EntropyFacts.

Context {C : Type} `{Classifier C} {R : Type}.
Variable env : Environment R.
Variable entropy : nat → R.

Lemma submit_all_with_entropy cv_indices X y sample_weight test_sets :
  submit_all (C:=C) (H0 := with_entropy env entropy)
             cv_indices X y sample_weight test_sets
  = submit_all (H0 := env) cv_indices X y sample_weight test_sets.
Proof.
  induction test_sets as [|[feature_i test_set] rest IH]; [done|].
  simpl. by rewrite IH.
Qed.

Lemma score_sequentially_with_entropy cv_indices X y sample_weight
      test_sets : ∀ auc_scores,
  score_sequentially (C:=C) (H0 := with_entropy env entropy)
                     cv_indices X y sample_weight test_sets auc_scores
  = score_sequentially (H0 := env)
                       cv_indices X y sample_weight test_sets auc_scores.
Proof.
  induction test_sets as [|[feature_i test_set] rest IH]; intros auc_scores;
    [done|].
  simpl. f_equal.
Qed.

(** X10.  Called with a seed or with a generator, the evaluation stage
    takes nothing from the operating system's entropy: on two machines
    that differ only in the entropy they would hand out, the same call has
    the same outcome and leaves the same world.  (Only [random_state=None]
    reads the entropy, and the search always passes [None].) *)
Theorem get_all_auc_scores_with_seed_ignores_entropy
        selected_features X y sample_weight cv_steps n_jobs forward
        random_state (w : World C) :
  random_state ≠ RsNone →
  get_all_auc_scores (H0 := with_entropy env entropy)
                     selected_features X y sample_weight cv_steps n_jobs
                     forward random_state w
  = get_all_auc_scores (H0 := env)
                       selected_features X y sample_weight cv_steps n_jobs
                       forward random_state w.
Proof.
  intros Hseed. unfold get_all_auc_scores. rewrite !bind_unfold.
  assert (make_RandomState (C:=C) (H0 := with_entropy env entropy)
                           random_state w
          = make_RandomState (H0 := env) random_state w) as ->
      by (by destruct random_state).
  destruct (make_RandomState random_state w) as [w1 [rs|e]]; [|done].
  rewrite !bind_unfold. unfold lift at 1 5.
  destruct (np_array_int selected_features) as [sel|e]; [|done].
  case_bool_decide; [done|]. rewrite !bind_unfold.
  change (call_split (H0 := with_entropy env entropy))
    with (call_split (C:=C) (H0 := env)).
  destruct (call_split rs cv_steps X y w1) as [w2 [cv_indices|e]]; [|done].
  rewrite !bind_unfold. unfold lift at 1 4.
  destruct (build_process_args _ _ _ _ _) as [pa|e]; [|done].
  rewrite !bind_unfold. unfold lift at 1 3.
  destruct (build_test_sets _ _ _ _) as [test_sets|e]; [|done].
  case_bool_decide.
  - rewrite !bind_unfold, submit_all_with_entropy. done.
  - by rewrite score_sequentially_with_entropy.
Qed.

End EntropyFacts.

Lemma get_all_auc_scores_with_seed_ignores_entropy_witness :
  get_all_auc_scores (H0 := with_entropy (demo_env entropy0) entropy1)
                     [] X6 y6 None 2 2 true (RsInt 0) world0
  = get_all_auc_scores (H0 := demo_env entropy0)
                       [] X6 y6 None 2 2 true (RsInt 0) world0.
Proof.
  exact (get_all_auc_scores_with_seed_ignores_entropy
           (demo_env entropy0) entropy1
           [] X6 y6 None 2%Z 2%Z true (RsInt 0%Z) world0
           ltac:(discriminate)).
Defined.

Section LogFacts.

Context {C : Type} `{Classifier C} {R : Type} `{Environment R}.

#[local] Abbreviation M := (M C).

Lemma emits_ret {A} P (a : A) : emits (C:=C) P (mret a).
Proof. intros w. exists []. by rewrite app_nil_r. Qed.

Lemma emits_lift {A} P (r : result A) : emits (C:=C) P (lift r).
Proof. intros w. exists []. by rewrite app_nil_r. Qed.

Lemma emits_raise {A} P e : emits P (raise e : M A).
Proof. intros w. exists []. by rewrite app_nil_r. Qed.

Lemma emits_emit (P : event → Prop) ev : P ev → emits (C:=C) P (emit ev).
Proof. intros Hev w. exists [ev]. simpl. by repeat constructor. Qed.

Lemma emits_bind {A B} P (m : M A) (k : A → M B) :
  emits P m → (∀ a, emits P (k a)) → emits P (m ≫= k).
Proof.
  intros Hm Hk w. rewrite bind_unfold. destruct (Hm w) as (evs & Hlog & Hevs).
  destruct (m w) as [w1 [a|e]]; simpl in *; [|by eauto].
  destruct (Hk a w1) as (evs' & Hlog' & Hevs').
  exists (evs ++ evs'). rewrite Hlog', Hlog, app_assoc.
  split; [done|by apply Forall_app].
Qed.

Lemma emits_single_auc_score feature_i cv_indices X y sample_weight :
  emits is_scoring_call
        (__single_auc_score__ feature_i cv_indices X y sample_weight).
Proof.
  assert (∀ last, emits is_scoring_call
                        (cv_loop cv_indices X y sample_weight last))
    as Hloop.
  { induction cv_indices as [|[train_idx test_idx] rest IH]; intros last;
      simpl; [apply emits_ret|].
    apply emits_bind; [apply emits_lift|]. intros X_train.
    apply emits_bind; [apply emits_lift|]. intros X_test.
    apply emits_bind; [apply emits_lift|]. intros y_train.
    apply emits_bind; [apply emits_lift|]. intros sw.
    apply emits_bind; [|intros _; apply IH].
    apply emits_bind; [by apply emits_emit|]. intros _ w. exists [].
    rewrite app_nil_r. split; [|done]. unfold action.
    by destruct (clf_fit _ _ _ _). }
  unfold __single_auc_score__.
  apply emits_bind; [apply Hloop|]. intros last.
  apply emits_bind; [|intros auc; apply emits_ret].
  destruct last as [[[test_idx X_test] swt]|]; simpl; [|apply emits_raise].
  apply emits_bind.
  { apply emits_bind; [by apply emits_emit|]. intros _ w. exists [].
    by rewrite app_nil_r. }
  intros proba. apply emits_bind; [apply emits_lift|]. intros p1.
  apply emits_bind; [apply emits_lift|]. intros y_pred.
  apply emits_bind; [by apply emits_emit|]. intros _. apply emits_lift.
Qed.

Lemma emits_submit_all cv_indices X y sample_weight test_sets :
  emits is_scoring_call
        (submit_all cv_indices X y sample_weight test_sets).
Proof.
  induction test_sets as [|[feature_i test_set] rest IH]; simpl;
    [apply emits_ret|].
  apply emits_bind; [apply emits_lift|]. intros X_i.
  apply emits_bind.
  { intros w. unfold submit.
    destruct (emits_single_auc_score feature_i cv_indices X_i y
                sample_weight w) as (evs & Hlog & Hevs).
    destruct (__single_auc_score__ _ _ _ _ _ _) as [w1 r]. simpl in *.
    eauto. }
  intros future. apply emits_bind; [apply IH|]. intros futures.
  apply emits_ret.
Qed.

Lemma emits_score_sequentially cv_indices X y sample_weight test_sets :
  ∀ auc_scores,
    emits is_scoring_call
          (score_sequentially cv_indices X y sample_weight test_sets
                              auc_scores).
Proof.
  induction test_sets as [|[feature_i test_set] rest IH]; intros auc_scores;
    simpl; [apply emits_ret|].
  apply emits_bind; [apply emits_lift|]. intros X_i.
  apply emits_bind; [apply emits_single_auc_score|]. intros r.
  apply emits_bind; [apply emits_lift|]. intros a. apply IH.
Qed.

(** X11.  One stage call builds at most one CV plan, and builds it before
    any candidate is scored: whatever the outcome, the calls the stage adds
    to the log are either none at all, or one call of the splitter with
    [cv_steps] folds followed only by calls of the classifier and of the
    metric.  A stage call that returns a score array is of the second
    kind, so all candidates of a step are scored on the same plan. *)
Theorem get_all_auc_scores_builds_one_plan_first
        selected_features X y sample_weight cv_steps n_jobs forward
        random_state (w : World C) :
  ∃ calls,
    Forall is_scoring_call calls
    ∧ (log (fst (get_all_auc_scores selected_features X y sample_weight
                                    cv_steps n_jobs forward random_state w))
       = log w ++ EvSplit cv_steps :: calls
       ∨ (log (fst (get_all_auc_scores selected_features X y sample_weight
                                       cv_steps n_jobs forward random_state
                                       w))
          = log w
          ∧ ∃ e, snd (get_all_auc_scores selected_features X y sample_weight
                                         cv_steps n_jobs forward
                                         random_state w) = Raise e)).
Proof.
  unfold get_all_auc_scores. rewrite bind_unfold.
  assert (log (fst (make_RandomState (C:=C) random_state w)) = log w)
    as Hlog.
  { destruct random_state as [|seed|r]; simpl; [done| |done].
    by case_bool_decide. }
  destruct (make_RandomState random_state w) as [w1 [rs|e]];
    simpl in Hlog; [|exists []; by eauto 10].
  rewrite bind_unfold. unfold lift at 1.
  destruct (np_array_int selected_features) as [sel|e];
    [|exists []; by eauto 10].
  case_bool_decide; [exists []; unfold raise; by eauto 10|].
  rewrite bind_unfold. unfold call_split. rewrite bind_unfold. simpl.
  unfold lift at 1.
  destruct (StratifiedKFold_split rs cv_steps X y) as [cv_indices|e];
    [|exists []; split; [done|]; left; simpl; by rewrite Hlog].
  match goal with
  | |- context [(?rest ≫= ?k) ?w2] =>
      assert (emits is_scoring_call (rest ≫= k)) as Hrest;
      [|destruct (Hrest w2) as (calls & Hcalls & Hscoring)]
  end.
  { apply emits_bind; [apply emits_lift|]. intros _.
    apply emits_bind; [apply emits_lift|]. intros test_sets.
    case_bool_decide.
    - apply emits_bind; [apply emits_submit_all|]. intros futures.
      apply emits_lift.
    - apply emits_score_sequentially. }
  exists calls. split; [done|]. left.
  rewrite Hcalls. simpl. by rewrite Hlog, <- app_assoc.
Qed.

End LogFacts.

Section ColumnSetFacts.

Lemma filter_all {A} (P : A → Prop) `{∀ x, Decision (P x)} (l : list A) :
  (∀ x, x ∈ l → P x) → filter P l = l.
Proof.
  induction l as [|x l IH]; intros Hall; [done|].
  rewrite filter_cons_True by (apply Hall; left).
  f_equal. apply IH. intros y Hy. apply Hall. by right.
Qed.

(** [l.remove(f)] on a list without duplicates that holds [f]. *)
Lemma list_remove_first_NoDup f (l : list nat) :
  NoDup l → f ∈ l →
  list_remove_first f l = Ok (filter (fun i => i ≠ f) l).
Proof.
  induction 1 as [|x l Hx Hnd IH]; intros Hin;
    [by apply elem_of_nil in Hin|].
  simpl. case_bool_decide as Hxf.
  - subst x. rewrite filter_cons_False by (intros Hne; by apply Hne).
    f_equal. symmetry. apply filter_all. intros y Hy ->. done.
  - apply elem_of_cons in Hin as [->|Hin]; [done|].
    rewrite (IH Hin). simpl. by rewrite filter_cons_True.
Qed.

Lemma build_test_sets_Ok forward sel (tf : list nat) :
  NoDup tf →
  ∀ todo, (∀ f, f ∈ todo → f ∈ tf) →
    ∃ test_sets,
      build_test_sets forward sel tf todo = Ok test_sets
      ∧ test_sets.*1 = todo
      ∧ ∀ f t, (f, t) ∈ test_sets →
               if forward
               then dt t = int64
                    ∧ items t ≡ₚ sel ++ [f]
                    ∧ Sorted (≤) (items t)
               else t = np_array (filter (fun i => i ≠ f) tf).
Proof.
  intros Hnd. induction todo as [|f todo IH]; intros Hsub.
  - exists []. repeat split; [done..|].
    intros f t Hin. by apply elem_of_nil in Hin.
  - destruct IH as (ts & Hts & Hfst & Hall).
    { intros g Hg. apply Hsub. by right. }
    assert (∃ t, test_set_of forward sel tf f = Ok t
                 ∧ if forward
                   then dt t = int64
                        ∧ items t ≡ₚ sel ++ [f]
                        ∧ Sorted (≤) (items t)
                   else t = np_array (filter (fun i => i ≠ f) tf))
      as (t & Ht & Hprop).
    { unfold test_set_of. destruct forward.
      - eexists. split; [done|]. simpl.
        split; [done|]. split; [apply merge_sort_Permutation|].
        apply Sorted_merge_sort, _.
      - rewrite list_remove_first_NoDup by (done || apply Hsub; left).
        simpl. eauto. }
    exists ((f, t) :: ts). cbn [build_test_sets]. rewrite Ht, Hts.
    split; [done|]. split; [by rewrite fmap_cons, Hfst|].
    intros g u [[= -> ->]|Hin]%elem_of_cons; [done|by apply Hall].
Qed.

(** X12.  The dict [test_sets] of a stage call can always be built (in
    backward mode [set_i.remove(feature_i)] always finds the candidate)
    and has exactly one entry per feature not yet selected, in increasing
    order of the feature.  In forward mode a candidate's columns are the
    selected features together with the candidate, in ascending order, as
    an int array; in backward mode they are all features not yet
    eliminated except the candidate, in ascending order, as [np.array]
    makes them (a float array when none is left). *)
Theorem test_sets_one_per_candidate forward (sel : list nat) X :
  ∃ test_sets,
    build_test_sets forward sel (test_features_of X sel)
                    (test_features_of X sel) = Ok test_sets
    ∧ test_sets.*1 = test_features_of X sel
    ∧ ∀ f t, (f, t) ∈ test_sets →
             f < shape1 X ∧ (f ∉ sel)
             ∧ if forward
               then dt t = int64
                    ∧ items t ≡ₚ sel ++ [f]
                    ∧ Sorted (≤) (items t)
               else t = np_array (filter (fun i => (i ∉ sel) ∧ i ≠ f)
                                         (seq 0 (shape1 X))).
Proof.
  destruct (build_test_sets_Ok forward sel (test_features_of X sel)
              (NoDup_test_features X sel) (test_features_of X sel))
    as (ts & Hts & Hfst & Hall); [done|].
  exists ts. split; [done|]. split; [done|].
  intros f t Hin.
  assert (f ∈ test_features_of X sel) as Hf.
  { rewrite <- Hfst. apply list_elem_of_fmap. by exists (f, t). }
  apply elem_of_test_features in Hf as [Hlt Hnot].
  split; [done|]. split; [done|].
  specialize (Hall f t Hin). destruct forward; [done|].
  rewrite Hall. f_equal. unfold test_features_of.
  rewrite list_filter_filter. apply list_filter_iff. intros i. tauto.
Qed.

End ColumnSetFacts.

Example backward_test_sets_of_six :
  match build_test_sets false [1] (test_features_of X6 [1])
                        (test_features_of X6 [1]) with
  | Ok ts => map (fun ft : nat * index_array => (fst ft, items (snd ft))) ts
  | Raise _ => []
  end
  = [(0, [2; 3]); (2, [0; 3]); (3, [0; 2])].
Proof. vm_compute. reflexivity. Qed.

(* ===================================================================== *)
(** * Further properties of the stage: the order of completion *)
(* ===================================================================== *)

Section OrderFacts.

Context {C : Type} `{Classifier C} {R : Type}.
Variable env : Environment R.
Variable d : ∀ A : Type, list A → list A.
Hypothesis Hd : ∀ (A : Type) (l : list A), d A l ≡ₚ l.

Lemma submit_all_with_done_order cv_indices X y sample_weight test_sets :
  submit_all (C:=C) (H0 := with_done_order env d Hd)
             cv_indices X y sample_weight test_sets
  = submit_all (H0 := env) cv_indices X y sample_weight test_sets.
Proof.
  induction test_sets as [|[feature_i test_set] rest IH]; [done|].
  simpl. by rewrite IH.
Qed.

Lemma score_sequentially_with_done_order cv_indices X y sample_weight
      test_sets : ∀ auc_scores,
  score_sequentially (C:=C) (H0 := with_done_order env d Hd)
                     cv_indices X y sample_weight test_sets auc_scores
  = score_sequentially (H0 := env)
                       cv_indices X y sample_weight test_sets auc_scores.
Proof.
  induction test_sets as [|[feature_i test_set] rest IH]; intros auc_scores;
    [done|].
  simpl. f_equal.
Qed.

(** What [collect] does with futures that all hold a result. *)
Lemma collect_pairs (pairs : list (nat * float)) : ∀ init scores,
  collect (Ok <$> pairs) init = Ok scores →
  length scores = length init
  ∧ Forall (fun p => fst p < length init) pairs
  ∧ (∀ i, i ∉ pairs.*1 → scores !! i = init !! i)
  ∧ (NoDup pairs.*1 → ∀ p, p ∈ pairs → scores !! (fst p) = Some (snd p)).
Proof.
  induction pairs as [|[f auc] pairs IH]; intros init scores Hc;
    simpl in Hc.
  - injection Hc as <-. repeat split; try done.
    intros _ p Hp. by apply elem_of_nil in Hp.
  - apply result_bind_Ok_inv in Hc as (init' & Hset & Hc).
    unfold np_set1 in Hset. case_bool_decide as Hf; [|done].
    injection Hset as <-.
    apply IH in Hc as (Hlen & Hrange & Hother & Hwritten).
    rewrite length_insert in Hlen, Hrange.
    split; [done|]. split; [by constructor|]. split.
    + intros i [Hne Hi]%not_elem_of_cons. simpl in Hne.
      rewrite Hother by done. by apply list_lookup_insert_ne.
    + intros [Hf' Hnd]%NoDup_cons p [->|Hp]%elem_of_cons; [|by eauto].
      simpl. rewrite Hother by done. by apply list_lookup_insert_eq.
Qed.

Lemma collect_pairs_total (pairs : list (nat * float)) : ∀ init,
  Forall (fun p => fst p < length init) pairs →
  ∃ scores, collect (Ok <$> pairs) init = Ok scores.
Proof.
  induction pairs as [|[f auc] pairs IH]; intros init Hrange; simpl;
    [by eauto|].
  apply Forall_cons in Hrange as [Hf Hrange]. simpl in Hf.
  unfold np_set1. rewrite bool_decide_eq_true_2 by done. simpl.
  apply IH. by rewrite length_insert.
Qed.

(** Futures with pairwise different indices can be collected in any
    order. *)
Lemma collect_Permutation (pairs pairs' : list (nat * float)) init scores :
  pairs ≡ₚ pairs' → NoDup pairs.*1 →
  collect (Ok <$> pairs) init = Ok scores →
  collect (Ok <$> pairs') init = Ok scores.
Proof.
  intros Hperm Hnd Hc.
  apply collect_pairs in Hc as (Hlen & Hrange & Hother & Hwritten).
  rewrite Hperm in Hrange.
  destruct (collect_pairs_total pairs' init Hrange) as [scores' Hc'].
  rewrite Hc'. f_equal.
  apply collect_pairs in Hc' as (Hlen' & _ & Hother' & Hwritten').
  apply list_eq. intros i.
  destruct (decide (i ∈ pairs.*1)) as [Hi|Hi].
  - apply list_elem_of_fmap in Hi as (p & -> & Hp).
    rewrite (Hwritten Hnd p Hp).
    apply Hwritten'; [by rewrite <- Hperm|by rewrite <- Hperm].
  - rewrite (Hother i Hi). apply Hother'. by rewrite <- Hperm.
Qed.

Lemma collect_any_order y (test_sets : list (nat * index_array))
      futures l l' init scores :
  Forall2 (fun t future => ∀ r, future = Ok r → scored (H0 := env) y (fst t) r)
          test_sets futures →
  NoDup test_sets.*1 →
  l ≡ₚ futures → l' ≡ₚ futures →
  collect l init = Ok scores → collect l' init = Ok scores.
Proof.
  intros Hsub Hnd Hl Hl' Hc.
  destruct (collect_Ok _ _ _ Hc) as (pairs & -> & _).
  change (Ok <$> pairs) with (map (@Ok (nat * float)) pairs) in Hl.
  symmetry in Hl.
  apply Permutation_map_inv in Hl as (fs & -> & Hfs).
  apply Permutation_map_inv in Hl' as (pairs' & -> & Hpairs').
  change (map Ok fs) with (@Ok (nat * float) <$> fs) in Hsub.
  apply Forall2_fmap_r in Hsub.
  assert (Forall2 (fun t r => scored (H0 := env) y (fst t) r) test_sets fs)
    as Hscored.
  { eapply Forall2_impl; [exact Hsub|]. simpl. intros t r Hr. by apply Hr. }
  apply Forall2_scored_fst in Hscored.
  apply (collect_Permutation pairs pairs'); [| |exact Hc].
  - by rewrite Hfs, Hpairs'.
  - by rewrite Hfs, Hscored.
Qed.

(** X13.  The score array of a step does not depend on the order in which
    the futures of the pool complete.  A stage call that returns an array
    returns the same array, and leaves the same world, whatever the order
    in which the finished futures are iterated: the candidates have
    pairwise different indices, so no write of line 317 overwrites
    another. *)
Theorem get_all_auc_scores_any_completion_order
        selected_features X y sample_weight cv_steps n_jobs forward
        random_state (w w' : World C) scores :
  get_all_auc_scores (H0 := env)
                     selected_features X y sample_weight cv_steps n_jobs
                     forward random_state w = (w', Ok scores) →
  get_all_auc_scores (H0 := with_done_order env d Hd)
                     selected_features X y sample_weight cv_steps n_jobs
                     forward random_state w = (w', Ok scores).
Proof.
  unfold get_all_auc_scores. rewrite !bind_unfold.
  change (make_RandomState (H0 := with_done_order env d Hd))
    with (make_RandomState (C:=C) (H0 := env)).
  destruct (make_RandomState random_state w) as [w1 [rs|e]]; [|done].
  rewrite !bind_unfold. unfold lift at 1 5.
  destruct (np_array_int selected_features) as [sel|e]; [|done].
  case_bool_decide; [done|]. rewrite !bind_unfold.
  change (call_split (H0 := with_done_order env d Hd))
    with (call_split (C:=C) (H0 := env)).
  destruct (call_split rs cv_steps X y w1) as [w2 [cv_indices|e]]; [|done].
  rewrite !bind_unfold. unfold lift at 1 4.
  destruct (build_process_args _ _ _ _ _) as [pa|e]; [|done].
  rewrite !bind_unfold. unfold lift at 1 3.
  destruct (build_test_sets _ _ _ _) as [test_sets|e] eqn:Hts; [|done].
  apply build_test_sets_fst in Hts.
  case_bool_decide.
  - rewrite !bind_unfold, submit_all_with_done_order.
    destruct (submit_all _ _ _ _ _ w2) as [w3 [futures|e]] eqn:Hsub;
      [|done].
    apply submit_all_Ok in Hsub. unfold lift. intros [= <- Hc].
    f_equal. simpl.
    apply (collect_any_order y test_sets futures
                             (@done_order R env _ futures));
      [done| |apply done_order_perm|apply Hd|done].
    rewrite Hts. apply NoDup_test_features.
  - by rewrite score_sequentially_with_done_order.
Qed.

End OrderFacts.

Lemma get_all_auc_scores_any_completion_order_witness :
  get_all_auc_scores
    (H0 := with_done_order (demo_env entropy0) submission_order
                           submission_order_perm)
    [] X6 y6 None 2 2 true (RsInt 0) world0
  = (fst (stage_run 2), Ok pool_scores).
Proof.
  assert (get_all_auc_scores (H0 := demo_env entropy0)
                             [] X6 y6 None 2 2 true (RsInt 0) world0
          = (fst (stage_run 2), Ok pool_scores)) as Hrun
      by (vm_compute; reflexivity).
  exact (get_all_auc_scores_any_completion_order
           (demo_env entropy0) submission_order submission_order_perm
           [] X6 y6 None 2%Z 2%Z true (RsInt 0%Z) world0
           (fst (stage_run 2)) pool_scores Hrun).
Defined.

(* ===================================================================== *)
(** * Further properties of the search: what it logs *)
(* ===================================================================== *)

Section SearchLogFacts.

Context {C : Type} `{Classifier C} {R : Type} `{Environment R}.

#[local] Abbreviation M := (M C).

Lemma emits_impl {A} (P Q : event → Prop) (m : M A) :
  (∀ ev, P ev → Q ev) → emits P m → emits Q m.
Proof.
  intros HPQ Hm w. destruct (Hm w) as (evs & Hlog & Hevs).
  exists evs. split; [done|]. eapply Forall_impl; [exact Hevs|done].
Qed.

Lemma is_scoring_call_collaborator ev :
  is_scoring_call ev → is_collaborator_call ev.
Proof. by destruct ev. Qed.

Lemma emits_make_RandomState P (random_state : random_state_arg R) :
  emits (C:=C) P (make_RandomState random_state).
Proof.
  destruct random_state as [|seed|r]; simpl.
  - intros w. exists []. simpl. by rewrite app_nil_r.
  - case_bool_decide; [apply emits_ret|apply emits_raise].
  - apply emits_ret.
Qed.

Lemma emits_get_all_auc_scores selected_features X y sample_weight
      cv_steps n_jobs forward random_state :
  emits is_collaborator_call
        (get_all_auc_scores selected_features X y sample_weight cv_steps
                            n_jobs forward random_state).
Proof.
  unfold get_all_auc_scores.
  apply emits_bind; [apply emits_make_RandomState|]. intros rs.
  apply emits_bind; [apply emits_lift|]. intros sel.
  case_bool_decide; [apply emits_raise|].
  apply emits_bind.
  { unfold call_split. apply emits_bind; [by apply emits_emit|].
    intros _. apply emits_lift. }
  intros cv_indices.
  apply emits_bind; [apply emits_lift|]. intros _.
  apply emits_bind; [apply emits_lift|]. intros test_sets.
  case_bool_decide.
  - apply emits_bind; [|intros futures; apply emits_lift].
    eapply emits_impl; [apply is_scoring_call_collaborator|].
    apply emits_submit_all.
  - eapply emits_impl; [apply is_scoring_call_collaborator|].
    apply emits_score_sequentially.
Qed.

Lemma emits_loop_body X y sample_weight cv_steps n_jobs forward
      matching_features selected_features auc_scores :
  emits is_collaborator_call
        (loop_body X y sample_weight cv_steps n_jobs forward
                   matching_features selected_features auc_scores).
Proof.
  unfold loop_body.
  apply emits_bind; [apply emits_get_all_auc_scores|]. intros auc_scores_i.
  apply emits_bind; [apply emits_lift|]. intros m. apply emits_ret.
Qed.

Lemma search_loop_log X y sample_weight n_features cv_steps n_jobs forward
      matching_features fuel :
  ∀ sel m (w w' : World C) r,
    search_loop fuel X y sample_weight n_features cv_steps n_jobs forward
                matching_features sel m w = Some (w', r) →
    ∃ calls, log w' = log w ++ calls ∧ Forall is_collaborator_call calls.
Proof.
  induction fuel as [|fuel IH]; intros sel m w w' r Hrun; simpl in Hrun;
    case_bool_decide; try done;
    try (injection Hrun as <- <-; exists []; by rewrite app_nil_r).
  destruct (emits_loop_body X y sample_weight cv_steps n_jobs forward
              matching_features sel m w) as (evs & Hlog & Hevs).
  destruct (loop_body _ _ _ _ _ _ _ _ _ w) as [w1 [[sel1 m1]|e]];
    simpl in Hlog.
  - apply IH in Hrun as (calls & Hlog' & Hcalls).
    exists (evs ++ calls). rewrite Hlog', Hlog, app_assoc.
    split; [done|by apply Forall_app].
  - injection Hrun as <- <-. eauto.
Qed.

(** X14.  The search logs one message at most, the notice that
    'n_features' was reduced, and it logs it before it calls any
    collaborator: what a run adds to the log is that notice, present
    exactly when [n_features] exceeds the feature count of [X], followed
    only by calls of the splitter, the classifier and the metric.  (A
    classifier that fails the sanity check ends the run before the
    notice.) *)
Theorem search_logs_reduction_notice_first
        fuel X y sample_weight n_features cv_steps n_jobs forward
        matching_features (w w' : World C) r :
  fulfilling (clf_obj w) = true →
  recursive_feature_selection_roc_auc fuel X y sample_weight n_features
                                      cv_steps n_jobs forward
                                      matching_features w
  = Some (w', r) →
  ∃ calls,
    log w'
    = log w
      ++ (if bool_decide (Z.of_nat (shape1 X) < n_features)%Z
          then [EvInfo info_n_features_reduced] else [])
      ++ calls
    ∧ Forall is_collaborator_call calls.
Proof.
  intros Hclf Hrun. unfold recursive_feature_selection_roc_auc in Hrun.
  rewrite Hclf in Hrun. change (negb true) with false in Hrun.
  cbv beta iota zeta in Hrun.
  set (w1 := if bool_decide (Z.of_nat (shape1 X) < n_features)%Z
             then fst (emit (EvInfo info_n_features_reduced) w) else w)
    in Hrun.
  assert (log w1
          = log w ++ (if bool_decide (Z.of_nat (shape1 X) < n_features)%Z
                      then [EvInfo info_n_features_reduced] else []))
    as Hnotice.
  { unfold w1. case_bool_decide; simpl; [done|by rewrite app_nil_r]. }
  clearbody w1.
  destruct (np_zeros _ _) as [m|e].
  - apply search_loop_log in Hrun as (calls & Hlog & Hcalls).
    exists calls. split; [|done]. by rewrite Hlog, Hnotice, <- app_assoc.
  - injection Hrun as <- <-. exists [].
    split; [|done]. by rewrite Hnotice, app_nil_r.
Qed.

End SearchLogFacts.

Lemma search_logs_reduction_notice_first_witness :
  ∃ calls,
    log (world_or world0 (search_run 5 7 2))
    = log world0
      ++ (if bool_decide (Z.of_nat (shape1 X6) < 7)%Z
          then [EvInfo info_n_features_reduced] else [])
      ++ calls
    ∧ Forall is_collaborator_call calls.
Proof.
  assert (recursive_feature_selection_roc_auc (H0 := demo_env entropy0)
            5 X6 y6 None 7 2 2 true false world0
          = Some (world_or world0 (search_run 5 7 2),
                  Ok ([Some 0; Some 1; Some 2; Some 3],
                      matrix_or_empty (search_run 5 7 2)))) as Hrun
      by (vm_compute; reflexivity).
  exact (search_logs_reduction_notice_first (H0 := demo_env entropy0)
           5 X6 y6 None 7%Z 2%Z 2%Z true false world0
           (world_or world0 (search_run 5 7 2))
           (Ok ([Some 0; Some 1; Some 2; Some 3],
                matrix_or_empty (search_run 5 7 2)))
           eq_refl Hrun).
Defined.

Example clamped_search_log :
  head (drop (length (log world0))
             (log (world_or world0 (search_run 5 7 2))))
  = Some (EvInfo info_n_features_reduced)
  ∧ head (drop (length (log world0))
               (log (world_or world0 (search_run 5 2 2))))
    = Some (EvSplit 2).
Proof. split; vm_compute; reflexivity. Qed.

(* ===================================================================== *)
(** * The further properties on concrete data *)
(* ===================================================================== *)

Lemma search_result_consistent_witness :
  n_rows pool_search_matrix = shape1 X6
  ∧ length (columns pool_search_matrix) = length [Some 0; Some 1]
  ∧ ∀ s, s < length [Some 0; Some 1] →
         ∃ col, columns pool_search_matrix !! s = Some col
                ∧ length col = shape1 X6
                ∧ [Some 0; Some 1] !! s = Some (select_best false true col)
                ∧ ∀ f, f < shape1 X6 → Some f ∈ take s [Some 0; Some 1] →
                       col !! f = Some NaN.
Proof.
  assert (recursive_feature_selection_roc_auc (H0 := demo_env entropy0)
            5 X6 y6 None 2 2 2 true false world0
          = Some (world_or world0 (search_run 5 2 2),
                  Ok ([Some 0; Some 1], pool_search_matrix))) as Hrun
      by (vm_compute; reflexivity).
  exact (search_result_consistent (H0 := demo_env entropy0)
           5 X6 y6 None 2%Z 2%Z 2%Z true false world0
           (world_or world0 (search_run 5 2 2))
           [Some 0; Some 1] pool_search_matrix Hrun).
Defined.

Lemma search_ends_within_requested_steps_witness :
  ∃ w' r,
    search_run 2 2 2 = Some (w', r)
    ∧ (Z.of_nat (draws w')
       ≤ Z.of_nat (draws world0) + Z.max 0 (clamp_n_features X6 2))%Z.
Proof.
  exact (search_ends_within_requested_steps (H0 := demo_env entropy0)
           2 X6 y6 None 2%Z 2%Z 2%Z true false world0
           ltac:(vm_compute; discriminate)).
Defined.

Lemma backward_search_of_all_features_raises_witness :
  ∃ w' e,
    recursive_feature_selection_roc_auc (H0 := demo_env entropy0)
      4 X6 y6 None 4 2 2 false false world0 = Some (w', Raise e).
Proof.
  exact (backward_search_of_all_features_raises (H0 := demo_env entropy0)
           4 X6 y6 None 4%Z 2%Z 2%Z false world0
           ltac:(simpl; lia) ltac:(simpl; lia) ltac:(simpl; lia)).
Defined.

Example backward_search_of_all_features_error :
  match recursive_feature_selection_roc_auc (H0 := demo_env entropy0)
          4 X6 y6 None 4 2 2 false false world0 with
  | Some (_, Raise e) => Some e
  | _ => None
  end
  = Some (IndexError "arrays used as indices must be of integer (or boolean) type").
Proof. vm_compute. reflexivity. Qed.

Lemma search_checks_cv_steps_in_first_step_witness :
  ∃ w',
    clf_obj w' = clf_obj world0
    ∧ recursive_feature_selection_roc_auc (H0 := demo_env entropy0)
        1 X6 y6 None 2 1 2 true false world0
      = Some (w',
              if bool_decide (clamp_n_features X6 2 = 0)%Z
              then Ok ([], {| n_rows := shape1 X6; columns := [] |})
              else Raise (ValueError "'cv_steps' must be 2 or higher")).
Proof.
  exact (search_checks_cv_steps_in_first_step (H0 := demo_env entropy0)
           0 X6 y6 None 2%Z 1%Z 2%Z true false world0
           ltac:(lia) eq_refl ltac:(vm_compute; discriminate)).
Defined.

Example search_for_no_feature_ignores_cv_steps :
  selected_of (recursive_feature_selection_roc_auc
                 (H0 := demo_env entropy0)
                 0 X6 y6 None 0 1 1 true false world0)
  = Some [].
Proof. vm_compute. reflexivity. Qed.

Lemma search_with_None_selected_raises_TypeError_witness :
  ∃ w' msg,
    search_loop (H0 := demo_env entropy0) 1 X6 y6 None 3 2 2 true false
                [Some 0; None] matrix0 world0
    = Some (w', Raise (TypeError msg))
    ∧ log w' = log world0
    ∧ clf_obj w' = clf_obj world0.
Proof.
  exact (search_with_None_selected_raises_TypeError
           (H0 := demo_env entropy0)
           0 X6 y6 None 3%Z 2%Z 2%Z true false [Some 0; None] matrix0 world0
           ltac:(apply list_elem_of_further, list_elem_of_here)
           ltac:(simpl; lia)).
Defined.
